(** * Embedded terminal panel of obsidian-claude-code: a shallow embedding

    The development follows [src/main.ts] (class [TerminalView]) and the
    second prototype variant (class [ClaudeCodeTerminalView]).  JavaScript
    strings are sequences of UTF-16 code units; callbacks become step
    functions over an explicit view state, and every call on the terminal
    widget or on a child process is recorded in an effect trace. *)

From Stdlib Require Import String Ascii ZArith List Bool Lia.
Import ListNotations.
Open Scope Z_scope.

(** ** JavaScript strings *)

Module Js.

(** A string is the list of its UTF-16 code units. *)
Definition jsstring := list Z.

Definition of_ascii (a : ascii) : Z := Z.of_N (N_of_ascii a).

(** Literal of printable text; control characters are written with the
    constants below. *)
Definition js (s : string) : jsstring := map of_ascii (list_ascii_of_string s).

Definition BS  : Z := 8.
Definition TAB : Z := 9.
Definition LF  : Z := 10.
Definition CR  : Z := 13.
Definition ESC : Z := 27.
Definition ETX : Z := 3.    (* Ctrl+C *)
Definition EOT : Z := 4.    (* Ctrl+D *)
Definition DEL : Z := 127.

Fixpoint eqb (a b : jsstring) : bool :=
  match a, b with
  | [], [] => true
  | x :: a', y :: b' => (x =? y) && eqb a' b'
  | _, _ => false
  end.

(** [s.length], of a string or of an array *)
Definition len {A} (s : list A) : Z := Z.of_nat (length s).

(** [s.charCodeAt(0)]: [None] stands for NaN (empty string), against which
    every comparison is false. *)
Definition charCodeAt0 (s : jsstring) : option Z := hd_error s.

(** [s.slice(0, -1)] *)
Definition slice_0_m1 (s : jsstring) : jsstring := removelast s.

(** [s.startsWith(p)] *)
Fixpoint startsWith (s p : jsstring) {struct p} : bool :=
  match p, s with
  | [], _ => true
  | x :: p', y :: s' => (x =? y) && startsWith s' p'
  | _ :: _, [] => false
  end.

(** [s.replace(p, r)] with a string pattern: the first occurrence only. *)
Fixpoint replaceFirst (p r s : jsstring) : jsstring :=
  if startsWith s p then r ++ skipn (length p) s
  else match s with
       | [] => []
       | c :: s' => c :: replaceFirst p r s'
       end.

(** White space and line terminators of ECMAScript: the class [\s] of a
    regular expression and what [trim] removes. *)
Definition is_space (c : Z) : bool :=
  ((9 <=? c) && (c <=? 13)) || (c =? 32) || (c =? 160) || (c =? 5760)
  || ((8192 <=? c) && (c <=? 8202)) || (c =? 8232) || (c =? 8233)
  || (c =? 8239) || (c =? 8287) || (c =? 12288) || (c =? 65279).

Fixpoint trimStart (s : jsstring) : jsstring :=
  match s with
  | c :: s' => if is_space c then trimStart s' else s
  | [] => []
  end.

Definition trimEnd (s : jsstring) : jsstring := rev (trimStart (rev s)).

Definition trim (s : jsstring) : jsstring := trimEnd (trimStart s).

(** [s.split(/\s+/)]: the pieces between maximal runs of white space. *)
Fixpoint split_ws_from (cur : jsstring) (in_ws : bool) (s : jsstring)
  : list jsstring :=
  match s with
  | [] => [cur]
  | c :: s' =>
      if is_space c
      then if in_ws then split_ws_from cur true s'
           else cur :: split_ws_from [] true s'
      else split_ws_from (cur ++ [c]) false s'
  end.

Definition split_ws (s : jsstring) : list jsstring := split_ws_from [] false s.

(** [parts.join(sep)] *)
Fixpoint join (sep : jsstring) (parts : list jsstring) : jsstring :=
  match parts with
  | [] => []
  | [p] => p
  | p :: rest => p ++ sep ++ join sep rest
  end.

(** *** Global regular-expression replacement

    [s.replace(/re/g, r)] scans left to right; where a match starts it emits
    [r] and resumes after the match.  A matcher returns the length of the
    match that starts at the head of its argument (none of the expressions
    used by the program matches the empty string). *)
Definition matcher := jsstring -> option nat.

Fixpoint replace_from (m : matcher) (r : jsstring) (skip : nat) (s : jsstring)
  : jsstring :=
  match s with
  | [] => []
  | c :: s' =>
      match skip with
      | S k => replace_from m r k s'
      | O =>
          match m s with
          | Some n => r ++ replace_from m r (Nat.pred n) s'
          | None => c :: replace_from m r O s'
          end
      end
  end.

Definition replaceAll (m : matcher) (r s : jsstring) : jsstring :=
  replace_from m r O s.

(** [s.match(/re/g)] yields the matches, or null when there is none;
    here: how many there are. *)
Fixpoint count_from (m : matcher) (skip : nat) (s : jsstring) : Z :=
  match s with
  | [] => 0
  | _ :: s' =>
      match skip with
      | S k => count_from m k s'
      | O =>
          match m s with
          | Some n => 1 + count_from m (Nat.pred n) s'
          | None => count_from m O s'
          end
      end
  end.

Definition countMatches (m : matcher) (s : jsstring) : Z := count_from m O s.

(** A literal pattern. *)
Definition lit (p : jsstring) : matcher :=
  fun s => if startsWith s p then Some (length p) else None.

(** [s.includes(p)] *)
Fixpoint includes (s p : jsstring) : bool :=
  startsWith s p ||
  match s with
  | [] => false
  | _ :: s' => includes s' p
  end.

Definition is_digit (c : Z) : bool := (48 <=? c) && (c <=? 57).
Definition is_param (c : Z) : bool := is_digit c || (c =? 59).
Definition is_letter (c : Z) : bool :=
  ((65 <=? c) && (c <=? 90)) || ((97 <=? c) && (c <=? 122)).

(** Length of the longest prefix of parameter characters [[0-9;]*]. *)
Fixpoint params_len (s : jsstring) : nat :=
  match s with
  | c :: s' => if is_param c then S (params_len s') else O
  | [] => O
  end.

(** [\x1b\[[0-9;]*F] for a final character in the class [final].  No final
    character is a parameter character, so the greedy star can only stop at
    the end of the longest run. *)
Definition csi (final : Z -> bool) : matcher :=
  fun s =>
    match s with
    | e :: b :: s' =>
        if (e =? ESC) && (b =? 91) then
          let n := params_len s' in
          match nth_error s' n with
          | Some f => if final f then Some (3 + n)%nat else None
          | None => None
          end
        else None
    | _ => None
    end.

(** [/\x1b\[[0-9;]*m/g] *)
Definition sgr_re : matcher := csi (fun c => c =? 109).
(** [/\x1b\[[\d;]*[A-Za-z]/g] *)
Definition csi_re : matcher := csi is_letter.

(** [s.replace(/(?<!\r)\n/g, '\r\n')] *)
Fixpoint crlf_from (prev_cr : bool) (s : jsstring) : jsstring :=
  match s with
  | [] => []
  | c :: s' =>
      if (c =? LF) && negb prev_cr
      then CR :: LF :: crlf_from false s'
      else c :: crlf_from (c =? CR) s'
  end.

Definition normalizeLineEndings (s : jsstring) : jsstring := crlf_from false s.

(** Every line feed of [s] directly follows a carriage return. *)
Fixpoint no_bare_lf_from (prev_cr : bool) (s : jsstring) : bool :=
  match s with
  | [] => true
  | c :: s' => (negb (c =? LF) || prev_cr) && no_bare_lf_from (c =? CR) s'
  end.

Definition no_bare_lf (s : jsstring) : bool := no_bare_lf_from false s.

End Js.

(** ** The terminal view of [src/main.ts] *)

Module View.
Import Js.

(** *** Calls on the outside world *)

Inductive signal := SIGINT | SIGTERM | SIGKILL.

(** The callbacks that the program passes to [terminal.onData]. *)
Inductive handler :=
| H_handleInput                (* (data) => this.handleInput(data) *)
| H_claudeInput (p : nat)      (* claudeInputHandler, handleClaudeCommand *)
| H_interactiveInput (p : nat) (* interactiveInputHandler *)
| H_claudeSimple (p : nat)     (* claudeHandler of claude-simple *)
| H_noop                       (* () => {}, restartTerminal *)
| H_ptyWrite (p : nat).        (* (data) => this.ptyProcess.write(data) *)

(** The callbacks that the program passes to [setTimeout]. *)
Inductive timer :=
| T_refresh                 (* showPrompt, 50 ms *)
| T_probeKill (p : nat)     (* testCommandAvailable, 1000 ms *)
| T_checkTimeout (p : nat)  (* check-claude, 5000 ms *)
| T_simpleHello (p : nat)   (* claude-simple, 1000 ms *)
| T_claudeHello (p : nat)   (* handleClaudeCommand, 500 ms *)
| T_claudeNudge (p : nat)   (* 2000 ms *)
| T_claudeWarn (p : nat)    (* 5000 ms *)
| T_claudeFinal (p : nat)   (* 15000 ms *)
| T_claudeFinalKill (p : nat) (* 2000 ms after T_claudeFinal *)
| T_ctrlcTerm (p : nat)     (* interactive Ctrl+C, 1000 ms *)
| T_ctrlcKill (p : nat)     (* 2000 ms after T_ctrlcTerm *)
| T_basicClear              (* startBasicShell, 200 ms *)
| T_basicPrompt             (* 50 ms after T_basicClear *)
| T_autoRun                 (* 500 ms after T_basicPrompt *)
| T_autoEnter               (* 100 ms after T_autoRun *)
| T_ptyDefault.             (* startPty with node-pty, 500 ms *)

Inductive effect :=
| TermWrite (s : jsstring)
| TermClear
| TermReset
| TermScrollToTop
| TermScrollToBottom
| TermRefresh
| TermDispose
| TermOnData (h : handler)
| TermOnSelectionChange
| TermOnResize
| Spawn (p : nat) (command : jsstring) (args : list jsstring)
| Kill (p : nat) (sig : signal)
| StdinWrite (p : nat) (s : jsstring)
| StdinEnd (p : nat)
| SetTimeout (ms : Z) (t : timer)
| Chdir (dir : jsstring)
| ConsoleLog.

(** How a lookup process of [testCommandAvailable] ends: the first of its
    exit, its error and the 1000 ms timer settles the promise. *)
Inductive probe_outcome :=
| ProbeExit (code : option Z)
| ProbeError
| ProbeTimeout.

(** What the test process of [check-claude] reports, in order. *)
Inductive check_event :=
| CkStdout (s : jsstring)
| CkStderr (s : jsstring)
| CkExit (code : option Z)
| CkError (msg : jsstring)
| CkTimeout.

Record settings := {
  defaultCommand : jsstring;
  autoRunCommand : bool
}.

(** The environment of the panel: the operating system and the libraries
    that the view only calls. *)
Record world := {
  w_settings : settings;
  w_username : jsstring;
  w_hostname : jsstring;
  w_homedir : jsstring;
  w_win32 : bool;                        (* os.platform() === 'win32' *)
  w_node_pty : bool;                     (* import('node-pty') succeeds *)
  w_shell : jsstring;                    (* process.env.SHELL || '/bin/bash' *)
  w_which : jsstring -> probe_outcome;   (* fate of the lookup for a name *)
  w_check : list check_event;            (* the run of bash -c 'claude --version' *)
  w_resolve : jsstring -> jsstring -> jsstring; (* path.resolve, from a cwd *)
  w_chdir : jsstring -> option jsstring; (* process.chdir: Some message = throws *)
  w_kill : nat -> signal -> bool;        (* handle.kill(sig) reports delivery *)
  w_json : list jsstring -> jsstring;    (* JSON.stringify of an argument list *)
  w_number : Z -> jsstring               (* a number in a template literal *)
}.

(** *** State *)

Inductive session_kind :=
| K_pty          (* node-pty shell, startPty *)
| K_claude       (* handleClaudeCommand *)
| K_simple       (* claude-simple *)
| K_interactive  (* python, node, mongo, psql: handleInteractiveCommand *)
| K_generic      (* any other external command *)
| K_lookup.      (* which / where, and the check-claude test process *)

(** A child-process handle together with the local variables of the
    closures registered on it.  [stdio] is [pipe] for every spawn, so
    [handle.stdin] is never null and its tests are omitted. *)
Record proc := {
  p_kind : session_kind;
  p_cmd : jsstring;        (* cmd, as captured by the closures of executeCommand *)
  p_killed : bool;         (* handle.killed *)
  p_live : bool;           (* isActive / interactiveMode *)
  p_output : bool;         (* hasOutput / hasReceivedOutput *)
  p_outputReceived : bool  (* outputReceived of executeCommand *)
}.

Record view := {
  ptyProcess : option nat;
  currentCommand : jsstring;
  commandHistory : list jsstring;
  historyIndex : Z;
  promptShown : bool;
  processingInput : bool;
  lastClaudeOutput : jsstring;
  clearScreenCount : Z;
  cwd : jsstring;            (* process.cwd(), shared by all spawns *)
  procs : list proc          (* handle [p] is the entry at index [p] *)
}.

(** Field initialisers of the class. *)
Definition new_view (dir : jsstring) : view := {|
  ptyProcess := None;
  currentCommand := [];
  commandHistory := [];
  historyIndex := -1;
  promptShown := false;
  processingInput := false;
  lastClaudeOutput := [];
  clearScreenCount := 0;
  cwd := dir;
  procs := []
|}.

Definition set_ptyProcess (v : option nat) (st : view) : view :=
  {| ptyProcess := v; currentCommand := currentCommand st;
     commandHistory := commandHistory st; historyIndex := historyIndex st;
     promptShown := promptShown st; processingInput := processingInput st;
     lastClaudeOutput := lastClaudeOutput st;
     clearScreenCount := clearScreenCount st; cwd := cwd st;
     procs := procs st |}.

Definition set_currentCommand (v : jsstring) (st : view) : view :=
  {| ptyProcess := ptyProcess st; currentCommand := v;
     commandHistory := commandHistory st; historyIndex := historyIndex st;
     promptShown := promptShown st; processingInput := processingInput st;
     lastClaudeOutput := lastClaudeOutput st;
     clearScreenCount := clearScreenCount st; cwd := cwd st;
     procs := procs st |}.

Definition set_commandHistory (v : list jsstring) (st : view) : view :=
  {| ptyProcess := ptyProcess st; currentCommand := currentCommand st;
     commandHistory := v; historyIndex := historyIndex st;
     promptShown := promptShown st; processingInput := processingInput st;
     lastClaudeOutput := lastClaudeOutput st;
     clearScreenCount := clearScreenCount st; cwd := cwd st;
     procs := procs st |}.

Definition set_historyIndex (v : Z) (st : view) : view :=
  {| ptyProcess := ptyProcess st; currentCommand := currentCommand st;
     commandHistory := commandHistory st; historyIndex := v;
     promptShown := promptShown st; processingInput := processingInput st;
     lastClaudeOutput := lastClaudeOutput st;
     clearScreenCount := clearScreenCount st; cwd := cwd st;
     procs := procs st |}.

Definition set_promptShown (v : bool) (st : view) : view :=
  {| ptyProcess := ptyProcess st; currentCommand := currentCommand st;
     commandHistory := commandHistory st; historyIndex := historyIndex st;
     promptShown := v; processingInput := processingInput st;
     lastClaudeOutput := lastClaudeOutput st;
     clearScreenCount := clearScreenCount st; cwd := cwd st;
     procs := procs st |}.

Definition set_processingInput (v : bool) (st : view) : view :=
  {| ptyProcess := ptyProcess st; currentCommand := currentCommand st;
     commandHistory := commandHistory st; historyIndex := historyIndex st;
     promptShown := promptShown st; processingInput := v;
     lastClaudeOutput := lastClaudeOutput st;
     clearScreenCount := clearScreenCount st; cwd := cwd st;
     procs := procs st |}.

Definition set_filter (last : jsstring) (n : Z) (st : view) : view :=
  {| ptyProcess := ptyProcess st; currentCommand := currentCommand st;
     commandHistory := commandHistory st; historyIndex := historyIndex st;
     promptShown := promptShown st; processingInput := processingInput st;
     lastClaudeOutput := last; clearScreenCount := n; cwd := cwd st;
     procs := procs st |}.

Definition set_cwd (v : jsstring) (st : view) : view :=
  {| ptyProcess := ptyProcess st; currentCommand := currentCommand st;
     commandHistory := commandHistory st; historyIndex := historyIndex st;
     promptShown := promptShown st; processingInput := processingInput st;
     lastClaudeOutput := lastClaudeOutput st;
     clearScreenCount := clearScreenCount st; cwd := v;
     procs := procs st |}.

Definition set_procs (v : list proc) (st : view) : view :=
  {| ptyProcess := ptyProcess st; currentCommand := currentCommand st;
     commandHistory := commandHistory st; historyIndex := historyIndex st;
     promptShown := promptShown st; processingInput := processingInput st;
     lastClaudeOutput := lastClaudeOutput st;
     clearScreenCount := clearScreenCount st; cwd := cwd st;
     procs := v |}.

(** *** Computations: state passing with an effect trace *)

Definition M (A : Type) : Type := view -> A * view * list effect.

Definition ret {A} (a : A) : M A := fun st => (a, st, []).

Definition bind {A B} (m : M A) (k : A -> M B) : M B :=
  fun st =>
    let '(a, st1, e1) := m st in
    let '(b, st2, e2) := k a st1 in
    (b, st2, e1 ++ e2).

Definition get : M view := fun st => (st, st, []).
Definition modify (f : view -> view) : M unit := fun st => (tt, f st, []).
Definition emit (e : effect) : M unit := fun st => (tt, st, [e]).

Declare Scope m_scope.
Delimit Scope m_scope with M.
Notation "x <- m ;; k" := (bind m (fun x => k))
  (at level 61, m at next level, right associativity) : m_scope.
Notation "m ;; k" := (bind m (fun _ => k))
  (at level 61, right associativity) : m_scope.
Open Scope m_scope.

Definition state_of {A} (r : A * view * list effect) : view := snd (fst r).
Definition trace_of {A} (r : A * view * list effect) : list effect := snd r.
Definition value_of {A} (r : A * view * list effect) : A := fst (fst r).

Definition write (s : jsstring) : M unit := emit (TermWrite s).

Definition crlf : jsstring := [CR; LF].

(** A template literal that ends a line of terminal output. *)
Definition line (s : jsstring) : jsstring := s ++ crlf.

(** *** Child-process handles *)

Definition new_proc (k : session_kind) (cmd : jsstring) : proc := {|
  p_kind := k; p_cmd := cmd; p_killed := false; p_live := true;
  p_output := false; p_outputReceived := false
|}.

Definition set_killed (b : bool) (pr : proc) : proc :=
  {| p_kind := p_kind pr; p_cmd := p_cmd pr; p_killed := b;
     p_live := p_live pr; p_output := p_output pr;
     p_outputReceived := p_outputReceived pr |}.

Definition set_live (b : bool) (pr : proc) : proc :=
  {| p_kind := p_kind pr; p_cmd := p_cmd pr; p_killed := p_killed pr;
     p_live := b; p_output := p_output pr;
     p_outputReceived := p_outputReceived pr |}.

Definition set_output (b : bool) (pr : proc) : proc :=
  {| p_kind := p_kind pr; p_cmd := p_cmd pr; p_killed := p_killed pr;
     p_live := p_live pr; p_output := b;
     p_outputReceived := p_outputReceived pr |}.

Definition set_outputReceived (b : bool) (pr : proc) : proc :=
  {| p_kind := p_kind pr; p_cmd := p_cmd pr; p_killed := p_killed pr;
     p_live := p_live pr; p_output := p_output pr;
     p_outputReceived := b |}.

Fixpoint update_nth (f : proc -> proc) (n : nat) (l : list proc) : list proc :=
  match l, n with
  | [], _ => []
  | x :: l', O => f x :: l'
  | x :: l', S k => x :: update_nth f k l'
  end.

Definition update_proc (p : nat) (f : proc -> proc) : M unit :=
  modify (fun st => set_procs (update_nth f p (procs st)) st).

Definition proc_of (st : view) (p : nat) : proc :=
  nth p (procs st) (new_proc K_generic []).

Definition killed (st : view) (p : nat) : bool := p_killed (proc_of st p).
Definition live (st : view) (p : nat) : bool := p_live (proc_of st p).
Definition hasOutput (st : view) (p : nat) : bool := p_output (proc_of st p).

(** [spawn(command, args, {...})]: a fresh handle.  The options (cwd,
    environment, stdio) do not influence the view and are left out. *)
Definition spawn (k : session_kind) (cmd command : jsstring)
    (args : list jsstring) : M nat :=
  fun st =>
    let p := length (procs st) in
    (p, set_procs (procs st ++ [new_proc k cmd]) st, [Spawn p command args]).

(** [handle.kill(sig)]: sets [handle.killed] when the signal is delivered. *)
Definition kill (w : world) (p : nat) (sig : signal) : M unit :=
  emit (Kill p sig) ;;
  update_proc p (fun pr => set_killed (p_killed pr || w_kill w p sig) pr).

(** *** The line editor's helpers *)

Definition showPrompt (w : world) : M unit :=
  st <- get ;;
  let home := w_homedir w in
  let displayCwd :=
    if startsWith (cwd st) home then replaceFirst home (js "~") (cwd st)
    else cwd st in
  modify (set_currentCommand []) ;;
  let prompt :=
    w_username w ++ js "@" ++ w_hostname w ++ js ":" ++ displayCwd ++ js "$ " in
  (if promptShown st then write (crlf ++ prompt)
   else (write prompt ;; modify (set_promptShown true))) ;;
  emit TermScrollToBottom ;;
  emit (SetTimeout 50 T_refresh).

Definition erase : jsstring := [BS; 32; BS].   (* '\b \b' *)

Fixpoint write_times (n : nat) (s : jsstring) : M unit :=
  match n with
  | O => ret tt
  | S k => write s ;; write_times k s
  end.

Definition replaceCurrentCommand (newCommand : jsstring) : M unit :=
  st <- get ;;
  let clearLength := length (currentCommand st) in
  write_times clearLength erase ;;
  modify (set_currentCommand newCommand) ;;
  write newCommand.

(** [this.commandHistory[i]]; [None] is [undefined]. *)
Definition history_at (h : list jsstring) (i : Z) : option jsstring :=
  if i <? 0 then None else nth_error h (Z.to_nat i).

(** *** The output filter *)

Definition clearScreenPattern : jsstring :=
  [ESC] ++ js "[2J" ++ [ESC] ++ js "[3J" ++ [ESC] ++ js "[H".

Definition simpleClear : jsstring := [ESC] ++ js "[H" ++ [ESC] ++ js "[2J".

Definition stripAnsi (s : jsstring) : jsstring :=
  replaceAll csi_re [] (replaceAll sgr_re [] s).

Definition filterClaudeOutput (output : jsstring) : M jsstring :=
  let clearScreenMatches := countMatches (lit clearScreenPattern) output in
  filtered <-
    (if 0 <? clearScreenMatches then
       modify (fun st =>
         set_filter (lastClaudeOutput st)
                    (clearScreenCount st + clearScreenMatches) st) ;;
       st <- get ;;
       if 2 <? clearScreenCount st then
         emit ConsoleLog ;;
         ret (replaceAll (lit clearScreenPattern) [] output)
       else
         ret (replaceAll (lit clearScreenPattern) simpleClear output)
     else ret output) ;;
  let contentWithoutAnsi := stripAnsi filtered in
  st <- get ;;
  (if negb (eqb contentWithoutAnsi (lastClaudeOutput st))
      && (50 <? len contentWithoutAnsi)
   then modify (set_filter contentWithoutAnsi 0)
   else ret tt) ;;
  ret (normalizeLineEndings filtered).

(** The filter applied to successive chunks. *)
Fixpoint filterChunks (chunks : list jsstring) : M (list jsstring) :=
  match chunks with
  | [] => ret []
  | c :: rest =>
      o <- filterClaudeOutput c ;;
      os <- filterChunks rest ;;
      ret (o :: os)
  end.

(** *** The availability probe *)

Definition available (o : probe_outcome) : bool :=
  match o with
  | ProbeExit (Some 0) => true
  | _ => false
  end.

Definition testCommandAvailable (w : world) (cmd : jsstring) : M bool :=
  let testCmd := if w_win32 w then js "where" else js "which" in
  p <- spawn K_lookup testCmd testCmd [cmd] ;;
  emit (SetTimeout 1000 (T_probeKill p)) ;;
  ret (available (w_which w cmd)).

(** *** Sessions *)

Definition tabs (n : nat) : jsstring := repeat TAB n.

(** The script handed to [expect -c]. *)
Definition expect_script (args : list jsstring) : jsstring :=
  [LF] ++ tabs 5 ++ js "spawn claude " ++ join (js " ") args ++
  [LF] ++ tabs 5 ++ js "interact" ++ [LF] ++ tabs 4.

(** The script handed to [python3 -c], line by line: a pseudo-terminal
    bridge around [['claude'] + <JSON of the arguments>]. *)
Definition python_script (w : world) (args : list jsstring) : jsstring :=
  join [LF]
    [[];
     js "import pty";
     js "import subprocess";
     js "import sys";
     js "import os";
     [];
     js "def run_claude():";
     tabs 1 ++ js "# Create a pseudo-terminal";
     tabs 1 ++ js "master, slave = pty.openpty()";
     tabs 1;
     tabs 1 ++ js "# Start Claude with the slave as stdin/stdout/stderr";
     tabs 1 ++ js "proc = subprocess.Popen(['claude'] + " ++ w_json w args ++ js ", ";
     tabs 2 ++ js "stdin=slave, stdout=slave, stderr=slave,";
     tabs 2 ++ js "preexec_fn=os.setsid)";
     tabs 1;
     tabs 1 ++ js "os.close(slave)";
     tabs 1;
     tabs 1 ++ js "# Forward data between master and our stdin/stdout";
     tabs 1 ++ js "while proc.poll() is None:";
     tabs 2 ++ js "try:";
     tabs 3 ++ js "data = os.read(master, 1024)";
     tabs 3 ++ js "if data:";
     tabs 4 ++ js "sys.stdout.buffer.write(data)";
     tabs 4 ++ js "sys.stdout.flush()";
     tabs 2 ++ js "except:";
     tabs 3 ++ js "break";
     tabs 1;
     tabs 1 ++ js "os.close(master)";
     tabs 1 ++ js "return proc.returncode";
     [];
     js "run_claude()";
     tabs 5].

Definition CHECK : Z := 10003.   (* U+2713 *)
Definition CROSS : Z := 10007.   (* U+2717 *)

(** [`${code}`] for an exit code that may be null. *)
Definition show_code (w : world) (code : option Z) : jsstring :=
  match code with
  | Some c => w_number w c
  | None => js "null"
  end.

(** [code !== 0 && code !== null] *)
Definition abnormal (code : option Z) : bool :=
  match code with
  | Some c => negb (c =? 0)
  | None => false
  end.

Definition nonempty {A} (l : list A) : bool :=
  match l with
  | [] => false
  | _ :: _ => true
  end.

Definition is_some {A} (o : option A) : bool :=
  match o with
  | Some _ => true
  | None => false
  end.

(** [[stdbufAvailable, ...]]: the strategy chosen by handleClaudeCommand
    on a platform other than Windows. *)
Definition chooseStrategy (w : world) (args : list jsstring)
  : M (jsstring * list jsstring) :=
  expectAvailable <- testCommandAvailable w (js "expect") ;;
  stdbufAvailable <- testCommandAvailable w (js "stdbuf") ;;
  unbufferAvailable <- testCommandAvailable w (js "unbuffer") ;;
  if expectAvailable then
    write (line (js "Using expect for TTY simulation...")) ;;
    ret (js "expect", [js "-c"; expect_script args])
  else if stdbufAvailable then
    write (line (js "Using stdbuf for forced line buffering...")) ;;
    ret (js "stdbuf", [js "-oL"; js "-eL"; js "claude"] ++ args)
  else if unbufferAvailable then
    write (line (js "Using unbuffer for TTY simulation...")) ;;
    ret (js "unbuffer", [js "-p"; js "claude"] ++ args)
  else
    pythonAvailable <- testCommandAvailable w (js "python3") ;;
    if pythonAvailable then
      write (line (js "Using Python PTY simulation...")) ;;
      ret (js "python3", [js "-c"; python_script w args])
    else
      write (line (js "Using direct Claude execution...")) ;;
      ret (js "claude", args).

Definition handleClaudeCommand (w : world) (args : list jsstring) : M unit :=
  claudeAvailable <- testCommandAvailable w (js "claude") ;;
  if negb claudeAvailable then
    write (line (js "claude: command not found")) ;;
    write (line (js "Please install Claude Code CLI first. Visit: https://claude.ai/code")) ;;
    showPrompt w
  else
    write (line (js "Starting Claude Code...")) ;;
    let claudeCmd :=
      if nonempty args then js "claude " ++ join (js " ") args
      else js "claude" in
    cs <- (if w_win32 w then
             write (line (js "Using Windows command prompt...")) ;;
             ret (js "cmd.exe", [js "/c"; claudeCmd])
           else chooseStrategy w args) ;;
    let command := fst cs in
    let spawnArgs := snd cs in
    write (line (js "Executing: " ++ command ++ js " " ++
                 join (js " ") (firstn 2 spawnArgs) ++
                 (if (2 <? length spawnArgs)%nat then js "..." else []))) ;;
    p <- spawn K_claude command command spawnArgs ;;
    modify (set_ptyProcess (Some p)) ;;
    emit (TermOnData (H_claudeInput p)) ;;
    write (line ([CHECK] ++ js " Claude Code started")) ;;
    emit (SetTimeout 500 (T_claudeHello p)) ;;
    emit (SetTimeout 2000 (T_claudeNudge p)) ;;
    emit (SetTimeout 5000 (T_claudeWarn p)) ;;
    emit (SetTimeout 15000 (T_claudeFinal p)).

(** claudeInputHandler: it reads [this.ptyProcess] when it is called, and
    [isActive] of the session that created it. *)
Definition claudeInputHandler (p : nat) (data : jsstring) : M unit :=
  st <- get ;;
  match ptyProcess st with
  | Some q =>
      if negb (killed st q) && live st p then emit (StdinWrite q data)
      else ret tt
  | None => ret tt
  end.

Definition handleInteractiveCommand (childProcess : nat) : M unit :=
  modify (set_ptyProcess (Some childProcess)) ;;
  emit (TermOnData (H_interactiveInput childProcess)).

Definition interactiveInputHandler (w : world) (p : nat) (data : jsstring)
  : M unit :=
  st <- get ;;
  if negb (killed st p) && live st p then
    if eqb data [ETX] then
      if hasOutput st p then emit (StdinWrite p [ETX])
      else
        write (js "^C" ++ crlf) ;;
        kill w p SIGINT ;;
        emit (SetTimeout 1000 (T_ctrlcTerm p))
    else if eqb data [EOT] then emit (StdinEnd p)
    else if eqb data [CR] then emit (StdinWrite p [LF])
    else emit (StdinWrite p data)
  else ret tt.

(** claudeHandler of claude-simple *)
Definition claudeSimpleHandler (p : nat) (data : jsstring) : M unit :=
  st <- get ;;
  if negb (killed st p) then emit (StdinWrite p data) else ret tt.

(** The test process of check-claude, up to the event that settles the
    awaited promise. *)
Fixpoint runCheck (w : world) (p : nat) (evs : list check_event)
    (outputReceived : bool) : M unit :=
  match evs with
  | [] => ret tt
  | CkStdout d :: rest =>
      write (js "[STDOUT] " ++ d) ;; runCheck w p rest true
  | CkStderr d :: rest =>
      write (js "[STDERR] " ++ d) ;; runCheck w p rest true
  | CkExit code :: _ =>
      (if outputReceived then ret tt
       else write (line (js "No output received, exit code: " ++ show_code w code))) ;;
      write (line (js "Direct test completed."))
  | CkError msg :: _ => write (line (js "Test error: " ++ msg))
  | CkTimeout :: _ =>
      st <- get ;;
      if negb (killed st p) then
        kill w p SIGTERM ;;
        write (line (js "Test timed out after 5 seconds"))
      else ret tt
  end.

Definition isInteractiveTool (cmd : jsstring) : bool :=
  eqb cmd (js "python") || eqb cmd (js "node") || eqb cmd (js "mongo")
  || eqb cmd (js "psql").

(** *** The command dispatcher *)

Definition executeCommand (w : world) (command : jsstring) : M unit :=
  let parts := split_ws command in
  let cmd := hd [] parts in
  let args := tl parts in
  if eqb cmd (js "clear") then
    emit TermClear ;;
    emit TermScrollToTop ;;
    showPrompt w
  else if eqb cmd (js "cd") then
    st <- get ;;
    let newDir :=
      if nonempty (hd [] args) then w_resolve w (cwd st) (hd [] args)
      else w_homedir w in
    match w_chdir w newDir with
    | None =>
        emit (Chdir newDir) ;; modify (set_cwd newDir) ;; showPrompt w
    | Some message =>
        write (line (js "cd: " ++ message)) ;; showPrompt w
    end
  else if eqb cmd (js "claude") then handleClaudeCommand w args
  else if eqb cmd (js "check-claude") then
    write (line (js "Checking Claude Code CLI installation...")) ;;
    claudeAvailable <- testCommandAvailable w (js "claude") ;;
    (if claudeAvailable then
       write (line ([CHECK] ++ js " Claude Code CLI found in PATH")) ;;
       write (line (js "Testing direct claude execution...")) ;;
       p <- spawn K_lookup (js "bash") (js "bash")
              [js "-c"; js "claude --version"] ;;
       emit (SetTimeout 5000 (T_checkTimeout p)) ;;
       runCheck w p (w_check w) false
     else
       write (line ([CROSS] ++ js " Claude Code CLI not found in PATH")) ;;
       write (line (js "Please install it from: https://claude.ai/code"))) ;;
    showPrompt w
  else if eqb cmd (js "claude-simple") then
    write (line (js "Testing Claude with simple execution...")) ;;
    claudeAvailable <- testCommandAvailable w (js "claude") ;;
    if negb claudeAvailable then
      write (line ([CROSS] ++ js " Claude CLI not found")) ;;
      showPrompt w
    else
      p <- spawn K_simple (js "claude") (js "claude") [] ;;
      modify (set_ptyProcess (Some p)) ;;
      emit (TermOnData (H_claudeSimple p)) ;;
      emit (SetTimeout 1000 (T_simpleHello p))
  else
    (* cmd !== 'cd' && cmd !== 'clear' holds on this path *)
    testAvailable <- testCommandAvailable w cmd ;;
    if negb testAvailable then
      write (line (cmd ++ js ": command not found")) ;;
      showPrompt w
    else
      let isInteractive := isInteractiveTool cmd in
      childProcess <-
        spawn (if isInteractive then K_interactive else K_generic)
              cmd cmd args ;;
      if isInteractive then handleInteractiveCommand childProcess
      else ret tt.

(** *** The line editor *)

(** [data.charCodeAt(0) >= 32 && data.charCodeAt(0) < 127] *)
Definition printableFirst (data : jsstring) : bool :=
  match charCodeAt0 data with
  | Some c => (32 <=? c) && (c <? 127)
  | None => false
  end.

Definition UP : jsstring := [ESC] ++ js "[A".
Definition DOWN : jsstring := [ESC] ++ js "[B".

Definition handleInput (w : world) (data : jsstring) : M unit :=
  st <- get ;;
  if is_some (ptyProcess st) then ret tt
  else if processingInput st then ret tt
  else
    modify (set_processingInput true) ;;
    if eqb data [CR] then
      write crlf ;;
      st <- get ;;
      if nonempty (trim (currentCommand st)) then
        let cleanCommand := trim (currentCommand st) in
        modify (fun s => set_commandHistory (commandHistory s ++ [cleanCommand]) s) ;;
        modify (fun s => set_historyIndex (len (commandHistory s)) s) ;;
        modify (set_currentCommand []) ;;
        modify (set_processingInput false) ;;
        executeCommand w cleanCommand
      else
        modify (set_processingInput false) ;;
        showPrompt w
    else if eqb data [DEL] || eqb data [BS] then
      st <- get ;;
      (if (0 <? len (currentCommand st)) then
         modify (set_currentCommand (slice_0_m1 (currentCommand st))) ;;
         write erase
       else ret tt) ;;
      modify (set_processingInput false)
    else if eqb data [ETX] then
      st <- get ;;
      (match ptyProcess st with
       | Some q => kill w q SIGINT ;; write (js "^C" ++ crlf)
       | None =>
           if (0 <? len (currentCommand st)) then
             write (js "^C" ++ crlf) ;;
             modify (set_currentCommand []) ;;
             showPrompt w
           else ret tt
       end) ;;
      modify (set_processingInput false)
    else if eqb data UP then
      st <- get ;;
      (if 0 <? historyIndex st then
         modify (set_historyIndex (historyIndex st - 1)) ;;
         match history_at (commandHistory st) (historyIndex st - 1) with
         | Some c => replaceCurrentCommand c
         | None => replaceCurrentCommand []      (* undefined: out of range *)
         end
       else ret tt) ;;
      modify (set_processingInput false)
    else if eqb data DOWN then
      st <- get ;;
      (if historyIndex st <? len (commandHistory st) - 1 then
         modify (set_historyIndex (historyIndex st + 1)) ;;
         match history_at (commandHistory st) (historyIndex st + 1) with
         | Some c => replaceCurrentCommand c
         | None => replaceCurrentCommand []      (* undefined: out of range *)
         end
       else if historyIndex st =? len (commandHistory st) - 1 then
         modify (set_historyIndex (historyIndex st + 1)) ;;
         replaceCurrentCommand []
       else ret tt) ;;
      modify (set_processingInput false)
    else if printableFirst data then
      modify (fun s => set_currentCommand (currentCommand s ++ data) s) ;;
      write data ;;
      modify (set_processingInput false)
    else
      modify (set_processingInput false).

(** *** Callbacks of child processes *)

(** Input is handed back to the line editor and the session is dropped. *)
Definition detach : M unit :=
  emit (TermOnData H_handleInput) ;;
  modify (set_ptyProcess None).

Definition show (chunk : jsstring) : M unit :=
  write chunk ;; emit TermScrollToBottom.

(** The listeners of [stdout]'s ['data'], in registration order. *)
Definition onStdout (p : nat) (chunk : jsstring) : M unit :=
  st <- get ;;
  match nth_error (procs st) p with
  | None => ret tt
  | Some pr =>
      match p_kind pr with
      | K_claude =>
          update_proc p (set_output true) ;;
          (if includes chunk clearScreenPattern then emit ConsoleLog
           else ret tt) ;;
          output <- filterClaudeOutput chunk ;;
          show output
      | K_interactive =>
          (* handleInteractiveCommand's listener, then executeCommand's *)
          update_proc p (set_output true) ;;
          show chunk ;;
          update_proc p (set_outputReceived true) ;;
          show chunk
      | K_generic =>
          update_proc p (set_outputReceived true) ;;
          show chunk
      | K_simple => write chunk
      | K_pty => write chunk
      | K_lookup => ret tt
      end
  end.

Definition onStderr (p : nat) (chunk : jsstring) : M unit :=
  st <- get ;;
  match nth_error (procs st) p with
  | None => ret tt
  | Some pr =>
      match p_kind pr with
      | K_claude =>
          update_proc p (set_output true) ;;
          output <- filterClaudeOutput chunk ;;
          show output
      | K_interactive | K_generic =>
          update_proc p (set_outputReceived true) ;;
          show chunk
      | K_simple => write chunk
      | K_pty | K_lookup => ret tt
      end
  end.

Definition onError (w : world) (p : nat) (message : jsstring) : M unit :=
  st <- get ;;
  match nth_error (procs st) p with
  | None => ret tt
  | Some pr =>
      match p_kind pr with
      | K_claude =>
          update_proc p (set_live false) ;;
          detach ;;
          write (line (js "Error starting Claude: " ++ message)) ;;
          showPrompt w
      | K_interactive =>
          update_proc p (set_live false) ;;
          detach ;;
          write (line (js "claude: " ++ message)) ;;
          showPrompt w ;;
          write (line (p_cmd pr ++ js ": command not found"))
      | K_generic =>
          write (line (p_cmd pr ++ js ": command not found")) ;;
          showPrompt w
      | K_simple =>
          detach ;;
          write (line (js "Error: " ++ message)) ;;
          showPrompt w
      | K_pty | K_lookup => ret tt
      end
  end.

Definition onExit (w : world) (p : nat) (code : option Z)
    (sig : option jsstring) : M unit :=
  st <- get ;;
  match nth_error (procs st) p with
  | None => ret tt
  | Some pr =>
      match p_kind pr with
      | K_claude =>
          update_proc p (set_live false) ;;
          detach ;;
          (match sig with
           | Some (c :: name) =>
               write (crlf ++ line (js "Claude terminated by signal: " ++ c :: name))
           | _ =>
               if abnormal code then
                 write (crlf ++ line (js "Claude exited with code " ++ show_code w code))
               else ret tt
           end) ;;
          showPrompt w
      | K_interactive =>
          update_proc p (set_live false) ;;
          detach ;;
          (if p_output pr then
             if abnormal code then
               write (crlf ++ line (js "Process exited with code " ++ show_code w code))
             else ret tt
           else
             write (line (js "claude: command failed to start or not found"))) ;;
          showPrompt w
      | K_generic => showPrompt w
      | K_simple =>
          detach ;;
          write (crlf ++ line (js "Claude simple test ended.")) ;;
          showPrompt w
      | K_pty | K_lookup => ret tt
      end
  end.

Definition onProcClose (w : world) (p : nat) : M unit :=
  st <- get ;;
  match nth_error (procs st) p with
  | None => ret tt
  | Some pr =>
      match p_kind pr with
      | K_interactive =>
          if p_live pr then
            update_proc p (set_live false) ;;
            detach ;;
            (if p_output pr then ret tt
             else write (line (js "claude: command not found or failed to start"))) ;;
            showPrompt w
          else ret tt
      | _ => ret tt
      end
  end.

(** *** Timers *)

Definition checkTimeout (w : world) (p : nat) : M unit :=
  st <- get ;;
  if negb (killed st p) then
    kill w p SIGTERM ;;
    write (line (js "Test timed out after 5 seconds"))
  else ret tt.

Definition onTimer (w : world) (t : timer) : M unit :=
  st <- get ;;
  match t with
  | T_refresh =>
      if is_some (ptyProcess st) then ret tt else emit TermRefresh
  | T_probeKill p => kill w p SIGTERM
  | T_checkTimeout p => checkTimeout w p
  | T_simpleHello p => emit (StdinWrite p (js "Hello" ++ [LF]))
  | T_claudeHello p =>
      match ptyProcess st with
      | Some q =>
          if live st p then
            emit (StdinWrite q
                    (js "Hello! I'm ready to help you with coding tasks." ++ [LF]))
          else ret tt
      | None => ret tt
      end
  | T_claudeNudge p =>
      if negb (hasOutput st p) && live st p then
        write (line (js "Waiting for Claude to respond...")) ;;
        match ptyProcess st with
        | Some q => emit (StdinWrite q [CR])
        | None => ret tt
        end
      else ret tt
  | T_claudeWarn p =>
      if negb (hasOutput st p) && live st p then
        write (line (js "Claude is taking longer than expected.")) ;;
        write (line (js "This might be the first run - Claude may be initializing.")) ;;
        write (line (js "You can try typing a message or press Ctrl+C to cancel."))
      else ret tt
  | T_claudeFinal p =>
      match ptyProcess st with
      | Some q =>
          if negb (hasOutput st p) && live st p && negb (killed st q) then
            write (crlf ++ line (js "Claude did not respond within 15 seconds. Terminating...")) ;;
            kill w q SIGTERM ;;
            emit (SetTimeout 2000 (T_claudeFinalKill p))
          else ret tt
      | None => ret tt
      end
  | T_claudeFinalKill p =>
      match ptyProcess st with
      | Some q => if negb (killed st q) then kill w q SIGKILL else ret tt
      | None => ret tt
      end
  | T_ctrlcTerm p =>
      if negb (killed st p) then
        kill w p SIGTERM ;;
        emit (SetTimeout 2000 (T_ctrlcKill p))
      else ret tt
  | T_ctrlcKill p =>
      if negb (killed st p) then kill w p SIGKILL else ret tt
  | T_basicClear =>
      emit TermClear ;; emit TermReset ;; emit (SetTimeout 50 T_basicPrompt)
  | T_basicPrompt =>
      emit TermClear ;;
      showPrompt w ;;
      if autoRunCommand (w_settings w)
         && nonempty (defaultCommand (w_settings w))
      then emit (SetTimeout 500 T_autoRun)
      else ret tt
  | T_autoRun =>
      modify (set_currentCommand (defaultCommand (w_settings w))) ;;
      write (defaultCommand (w_settings w)) ;;
      emit (SetTimeout 100 T_autoEnter)
  | T_autoEnter => handleInput w [CR]
  | T_ptyDefault =>
      match ptyProcess st with
      | Some q => emit (StdinWrite q (defaultCommand (w_settings w) ++ [CR]))
      | None => ret tt
      end
  end.

(** *** The view controller *)

Definition startBasicShell (w : world) : M unit :=
  modify (set_currentCommand []) ;;
  modify (set_commandHistory []) ;;
  modify (set_historyIndex (-1)) ;;
  (match w_chdir w (w_homedir w) with
   | None => emit (Chdir (w_homedir w)) ;; modify (set_cwd (w_homedir w))
   | Some _ => emit ConsoleLog
   end) ;;
  emit (SetTimeout 200 T_basicClear) ;;
  emit (TermOnData H_handleInput) ;;
  emit TermOnSelectionChange.

Definition startPty (w : world) : M unit :=
  if w_node_pty w then
    let shell := if w_win32 w then js "powershell.exe" else w_shell w in
    p <- spawn K_pty shell shell [] ;;
    modify (set_ptyProcess (Some p)) ;;
    emit (TermOnData (H_ptyWrite p)) ;;
    emit TermOnResize ;;
    emit (SetTimeout 500 T_ptyDefault)
  else startBasicShell w.

Definition onClose (w : world) : M unit :=
  st <- get ;;
  (match ptyProcess st with
   | Some q => kill w q SIGTERM          (* kill() sends SIGTERM *)
   | None => ret tt
   end) ;;
  emit TermDispose.

Definition restartTerminal (w : world) : M unit :=
  st <- get ;;
  (match ptyProcess st with
   | Some q => kill w q SIGTERM ;; modify (set_ptyProcess None)
   | None => ret tt
   end) ;;
  emit TermClear ;;
  emit TermScrollToTop ;;
  emit (TermOnData H_noop) ;;
  emit TermOnSelectionChange ;;
  modify (set_currentCommand []) ;;
  modify (set_commandHistory []) ;;
  modify (set_historyIndex (-1)) ;;
  modify (set_promptShown false) ;;
  modify (set_processingInput false) ;;
  startPty w.

(** What a callback given to [terminal.onData] does with a keystroke. *)
Definition runHandler (w : world) (h : handler) (data : jsstring) : M unit :=
  match h with
  | H_handleInput => handleInput w data
  | H_claudeInput p => claudeInputHandler p data
  | H_interactiveInput p => interactiveInputHandler w p data
  | H_claudeSimple p => claudeSimpleHandler p data
  | H_noop => ret tt
  | H_ptyWrite _ =>
      st <- get ;;
      match ptyProcess st with
      | Some q => emit (StdinWrite q data)
      | None => ret tt
      end
  end.

(** Keystrokes handed to the line editor one after the other. *)
Fixpoint feed (w : world) (keys : list jsstring) : M unit :=
  match keys with
  | [] => ret tt
  | data :: rest => handleInput w data ;; feed w rest
  end.

(** *** The panel as an event loop *)

Inductive event :=
| E_open                                   (* onOpen, up to startPty *)
| E_data (data : jsstring)                 (* the display reports input *)
| E_stdout (p : nat) (chunk : jsstring)
| E_stderr (p : nat) (chunk : jsstring)
| E_exit (p : nat) (code : option Z) (sig : option jsstring)
| E_error (p : nat) (message : jsstring)
| E_close (p : nat)
| E_timer (t : timer)
| E_restart                                (* restartTerminal *)
| E_viewClose.                             (* onClose *)

(** The display's answer to [onData(callback)]: how a new callback joins
    the callbacks that receive input. *)
Definition subscription := handler -> list handler -> list handler.

(** Modelled from the spec: the terminal-emulation widget is a library that
    is not part of the sources; its interface is given as
    [onData(callback)] (raw keystrokes, single active subscription), which
    is also what restartTerminal relies on. *)
Definition single_subscription : subscription := fun h _ => [h].

(** [onData] of the imported widget ([Terminal] of [@xterm/xterm]) is an
    event: a call adds its callback to the listeners, which are called in
    the order of their registration, and returns the handle that would
    remove it.  The view drops every such handle, so a callback, once
    registered, stays. *)
Definition additive_subscription : subscription := fun h l => l ++ [h].

Record panel := {
  pv : view;
  listeners : list handler
}.

Fixpoint deliver (w : world) (hs : list handler) (data : jsstring) : M unit :=
  match hs with
  | [] => ret tt
  | h :: rest => runHandler w h data ;; deliver w rest data
  end.

Definition react (w : world) (hs : list handler) (ev : event) : M unit :=
  match ev with
  | E_open => startPty w
  | E_data data => deliver w hs data
  | E_stdout p chunk => onStdout p chunk
  | E_stderr p chunk => onStderr p chunk
  | E_exit p code sig => onExit w p code sig
  | E_error p message => onError w p message
  | E_close p => onProcClose w p
  | E_timer t => onTimer w t
  | E_restart => restartTerminal w
  | E_viewClose => onClose w
  end.

Definition rebind (sub : subscription) (hs : list handler)
    (tr : list effect) : list handler :=
  fold_left (fun l e => match e with TermOnData h => sub h l | _ => l end)
            tr hs.

Definition step (w : world) (sub : subscription) (pn : panel) (ev : event)
  : panel * list effect :=
  let r := react w (listeners pn) ev (pv pn) in
  ({| pv := state_of r; listeners := rebind sub (listeners pn) (trace_of r) |},
   trace_of r).

Fixpoint run (w : world) (sub : subscription) (pn : panel)
    (evs : list event) : panel * list effect :=
  match evs with
  | [] => (pn, [])
  | ev :: rest =>
      let '(pn1, t1) := step w sub pn ev in
      let '(pn2, t2) := run w sub pn1 rest in
      (pn2, t1 ++ t2)
  end.

(** A panel before [onOpen]. *)
Definition closed_panel (dir : jsstring) : panel :=
  {| pv := new_view dir; listeners := [] |}.

(** How many callbacks receive one keystroke. *)
Definition deliveries (pn : panel) : nat := length (listeners pn).

(** *** What the display shows

    The calls on the display since its last [clear()], that call included:
    what was written over an emptied scrollback, and where the viewport was
    moved. *)
Definition is_display (e : effect) : bool :=
  match e with
  | TermWrite _ | TermClear | TermReset | TermScrollToTop
  | TermScrollToBottom => true
  | _ => false
  end.

Fixpoint since_clear (acc : list effect) (tr : list effect) : list effect :=
  match tr with
  | [] => acc
  | TermClear :: rest => since_clear [TermClear] rest
  | e :: rest =>
      since_clear (if is_display e then acc ++ [e] else acc) rest
  end.

Definition is_spawn (e : effect) : bool :=
  match e with
  | Spawn _ _ _ => true
  | _ => false
  end.

(** The texts handed to [terminal.write], in order. *)
Fixpoint written (tr : list effect) : list jsstring :=
  match tr with
  | [] => []
  | TermWrite s :: rest => s :: written rest
  | _ :: rest => written rest
  end.

(** The text of the prompt in a state. *)
Definition promptText (w : world) (st : view) : jsstring :=
  w_username w ++ js "@" ++ w_hostname w ++ js ":" ++
  (if startsWith (cwd st) (w_homedir w)
   then replaceFirst (w_homedir w) (js "~") (cwd st) else cwd st)
  ++ js "$ ".

(** The clear-screen triple as a chunk of its own. *)
Definition triple : jsstring := clearScreenPattern.

(** The callback of the last [onData] call of a trace, if any. *)
Definition last_onData_from (acc : option handler) (tr : list effect)
  : option handler :=
  fold_left (fun a e => match e with TermOnData h => Some h | _ => a end)
            tr acc.

Definition last_onData (tr : list effect) : option handler :=
  last_onData_from None tr.

Definition slot (hs : list handler) (acc : option handler) : list handler :=
  match acc with
  | Some h => [h]
  | None => hs
  end.

(** The callbacks passed to [onData] in a trace, in the order of the
    calls. *)
Fixpoint onData_calls (tr : list effect) : list handler :=
  match tr with
  | [] => []
  | TermOnData h :: rest => h :: onData_calls rest
  | _ :: rest => onData_calls rest
  end.

(** The three stages of the interrupt of an interactive tool, run one
    after the other. *)
Definition interrupt (w : world) (p : nat) : M unit :=
  interactiveInputHandler w p [ETX] ;;
  onTimer w (T_ctrlcTerm p) ;;
  onTimer w (T_ctrlcKill p).

(** The states that the panel reaches from its construction. *)
Definition reached (w : world) (sub : subscription) (dir : jsstring)
    (evs : list event) : view :=
  pv (fst (run w sub (closed_panel dir) evs)).

End View.

(** ** The second prototype variant: [ClaudeCodeTerminalView] *)

Module Proto2.
Import Js.

Inductive effect :=
| TermWrite (s : jsstring)
| TermClear
| TermDispose
| TermOnData
| Spawn (p : nat) (command : jsstring) (args : list jsstring)
| Kill (p : nat)
| StdinWrite (p : nat) (s : jsstring)
| Notice (s : jsstring).

Record world := {
  defaultCommand : jsstring;        (* this.plugin.settings.defaultCommand *)
  spawn_throws : option jsstring;   (* `${error}` when spawn throws *)
  show_code : option Z -> jsstring  (* `${code}` *)
}.

Record view := {
  childProcess : option nat;
  spawned : nat                     (* handles created so far *)
}.

Definition crlf : jsstring := [CR; LF].
Definition CHECK : Z := 10003.
Definition CROSS : Z := 10007.

Definition claudePath : jsstring := js "/usr/local/bin/claude".

Definition banner (w : world) : jsstring :=
  js "Starting " ++ defaultCommand w ++ js "..." ++ crlf.

Definition startClaudeCode (w : world) (st : view) : view * list effect :=
  let command := defaultCommand w in
  match spawn_throws w with
  | None =>
      let p := spawned st in
      ({| childProcess := Some p; spawned := S p |},
       [TermWrite (js "Starting " ++ command ++ js "..." ++ crlf);
        Spawn p claudePath [];
        TermOnData])
  | Some error =>
      (st,
       [TermWrite (js "Starting " ++ command ++ js "..." ++ crlf);
        TermWrite ([CROSS] ++ js " Error starting Claude Code: " ++ error ++ crlf);
        Notice (js "Failed to start Claude Code. Make sure it's installed and accessible.")])
  end.

(** The listener of ['close']. *)
Definition onProcClose (w : world) (code : option Z) (st : view)
  : view * list effect :=
  ({| childProcess := None; spawned := spawned st |},
   [TermWrite (crlf ++ crlf ++ [CHECK] ++ js " Process exited with code "
               ++ show_code w code ++ crlf);
    TermWrite (js "Click the terminal icon to restart." ++ crlf)]).

(** The listener of ['error']; [command] is the one captured at start. *)
Definition onProcError (w : world) (message : jsstring) (st : view)
  : view * list effect :=
  let command := defaultCommand w in
  ({| childProcess := None; spawned := spawned st |},
   [TermWrite (crlf ++ [CROSS] ++ js " Error: " ++ message ++ crlf);
    TermWrite (js "Make sure '" ++ command
               ++ js "' is installed and accessible in your PATH." ++ crlf);
    Notice (js "Failed to start " ++ command
            ++ js ". Check the terminal for details.")]).

Definition onOutput (chunk : jsstring) (st : view) : view * list effect :=
  (st, [TermWrite chunk]).

(** The callback given to [terminal.onData]. *)
Definition onData (data : jsstring) (st : view) : view * list effect :=
  match childProcess st with
  | Some q => (st, [StdinWrite q data])
  | None => (st, [])
  end.

Definition stop (st : view) : view * list effect :=
  match childProcess st with
  | Some q => ({| childProcess := None; spawned := spawned st |}, [Kill q])
  | None => (st, [])
  end.

Definition restartClaudeCode (w : world) (st : view) : view * list effect :=
  let '(st1, t1) := stop st in
  let '(st2, t2) := startClaudeCode w st1 in
  (st2, t1 ++ [TermClear] ++ t2).

Definition onClose (st : view) : view * list effect :=
  let '(st1, t1) := stop st in
  (st1, t1 ++ [TermDispose]).

Inductive event :=
| E_start                              (* onOpen: startClaudeCode *)
| E_restart                            (* the restart button *)
| E_data (data : jsstring)
| E_output (chunk : jsstring)          (* stdout or stderr *)
| E_close (code : option Z)
| E_error (message : jsstring)
| E_viewClose.

Definition step (w : world) (st : view) (ev : event) : view * list effect :=
  match ev with
  | E_start => startClaudeCode w st
  | E_restart => restartClaudeCode w st
  | E_data data => onData data st
  | E_output chunk => onOutput chunk st
  | E_close code => onProcClose w code st
  | E_error message => onProcError w message st
  | E_viewClose => onClose st
  end.

Fixpoint run (w : world) (st : view) (evs : list event)
  : view * list effect :=
  match evs with
  | [] => (st, [])
  | ev :: rest =>
      let '(st1, t1) := step w st ev in
      let '(st2, t2) := run w st1 rest in
      (st2, t1 ++ t2)
  end.

Definition new_view : view := {| childProcess := None; spawned := O |}.

(** The same installation with another value of the setting. *)
Definition with_command (c : jsstring) (w : world) : world :=
  {| defaultCommand := c; spawn_throws := spawn_throws w;
     show_code := show_code w |}.

Definition is_spawn (e : effect) : bool :=
  match e with
  | Spawn _ _ _ => true
  | _ => false
  end.

(** An effect without the text it shows to the user. *)
Definition untexted (e : effect) : effect :=
  match e with
  | TermWrite _ => TermWrite []
  | Notice _ => Notice []
  | e => e
  end.

(** The effects other than the banner of [w]. *)
Definition is_banner (w : world) (e : effect) : bool :=
  match e with
  | TermWrite s => eqb s (banner w)
  | _ => false
  end.

Definition beside_banner (w : world) (tr : list effect) : list effect :=
  filter (fun e => negb (is_banner w e)) tr.

(** An installation where [spawn] succeeds. *)
Definition sample : world :=
  {| defaultCommand := js "claude"; spawn_throws := None;
     show_code := fun _ => js "1" |}.

End Proto2.

(** ** The command buffer in the words of the specification *)

Module EditorSpec.
Import Js View.

Definition is_printable (c : Z) : bool := (32 <=? c) && (c <=? 126).

(** One keystroke: a printable character is appended, a backspace removes
    the last character, anything else leaves the buffer as it is. *)
Definition key_effect (buf data : jsstring) : jsstring :=
  match data with
  | [c] =>
      if is_printable c then buf ++ [c]
      else if (c =? DEL) || (c =? BS) then removelast buf
      else buf
  | _ => buf
  end.

Definition buffer_after (buf : jsstring) (keys : list jsstring) : jsstring :=
  fold_left key_effect keys buf.

(** Keystrokes that are neither Enter, Ctrl+C nor an arrow, each a single
    character or a control sequence. *)
Definition editing_key (data : jsstring) : bool :=
  negb (eqb data [CR]) && negb (eqb data [ETX])
  && negb (eqb data UP) && negb (eqb data DOWN)
  && (negb (printableFirst data) || (length data =? 1)%nat).

End EditorSpec.

(** ** A sample installation *)

Module Sample.
Import Js View.

Definition home : jsstring := js "/home/user".

(** No node-pty, nothing on the PATH: every lookup runs into its timeout. *)
Definition bare : world := {|
  w_settings := {| defaultCommand := []; autoRunCommand := false |};
  w_username := js "user";
  w_hostname := js "host";
  w_homedir := home;
  w_win32 := false;
  w_node_pty := false;
  w_shell := js "/bin/bash";
  w_which := fun _ => ProbeTimeout;
  w_check := [CkTimeout];
  w_resolve := fun _ d => d;
  w_chdir := fun _ => None;
  w_kill := fun _ _ => true;
  w_json := fun _ => js "[]";
  w_number := fun _ => js "1"
|}.

(** The same with every lookup succeeding. *)
Definition equipped : world := {|
  w_settings := w_settings bare;
  w_username := w_username bare;
  w_hostname := w_hostname bare;
  w_homedir := home;
  w_win32 := false;
  w_node_pty := false;
  w_shell := w_shell bare;
  w_which := fun _ => ProbeExit (Some 0);
  w_check := w_check bare;
  w_resolve := w_resolve bare;
  w_chdir := w_chdir bare;
  w_kill := w_kill bare;
  w_json := w_json bare;
  w_number := w_number bare
|}.

(** The keystrokes of a typed line, Enter included. *)
Definition typed (s : jsstring) : list event :=
  map (fun c => E_data [c]) s ++ [E_data [CR]].

Definition prompt : jsstring := js "user@host:~$ ".

End Sample.

(** ** Assertions on computations *)

Module Assert.
Import Js View.

(** The postcondition [Q] holds of the result and the final state. *)
Definition wp {A} (m : M A) (Q : A -> view -> Prop) (st : view) : Prop :=
  Q (value_of (m st)) (state_of (m st)).

(** The part of the state that only the line editor and the view
    controller assign: history, history cursor and re-entrancy flag. *)
Definition editor_core (st : view) : list jsstring * Z * bool :=
  (commandHistory st, historyIndex st, processingInput st).

Definition frames {A} (m : M A) : Prop :=
  forall st, editor_core (state_of (m st)) = editor_core st.

(** The invariant of the line editor: the re-entrancy flag is down between
    two events, and the history cursor is either the initial -1 over an
    empty history or a position in [0, length]. *)
Definition cursor_ok (h : list jsstring) (i : Z) : Prop :=
  (i = -1 /\ h = []) \/ (0 <= i <= len h).

Definition Inv (st : view) : Prop :=
  processingInput st = false
  /\ cursor_ok (commandHistory st) (historyIndex st).

Definition keeps {A} (m : M A) : Prop :=
  forall st, Inv st -> Inv (state_of (m st)).

End Assert.

(** ** The search path handed to child processes *)

Module Env.
Import Js.

Definition COLON : Z := 58.

(** [s.split(sep)] for a one-character separator. *)
Fixpoint split_on_from (sep : Z) (cur s : jsstring) : list jsstring :=
  match s with
  | [] => [cur]
  | c :: s' =>
      if c =? sep then cur :: split_on_from sep [] s'
      else split_on_from sep (cur ++ [c]) s'
  end.

Definition split_on (sep : Z) (s : jsstring) : list jsstring :=
  split_on_from sep [] s.

Fixpoint mem (x : jsstring) (l : list jsstring) : bool :=
  match l with
  | [] => false
  | y :: l' => eqb x y || mem x l'
  end.

(** [[...new Set(l)]]: the first occurrence of every element, in order. *)
Fixpoint uniq_from (seen l : list jsstring) : list jsstring :=
  match l with
  | [] => []
  | x :: l' =>
      if mem x seen then uniq_from seen l'
      else x :: uniq_from (x :: seen) l'
  end.

Definition uniq (l : list jsstring) : list jsstring := uniq_from [] l.

(** The directories added to the search path; [localBin] and [bin] stand
    for [path.join(os.homedir(), '.local/bin')] and
    [path.join(os.homedir(), 'bin')]. *)
Definition additionalPaths (localBin bin : jsstring) : list jsstring :=
  [js "/usr/local/bin"; js "/opt/homebrew/bin"; localBin; bin;
   js "/usr/bin"; js "/bin"].

(** The entries of the enhanced path; [envPath] is [process.env.PATH]. *)
Definition enhancedEntries (envPath : option jsstring) (localBin bin : jsstring)
  : list jsstring :=
  let currentPath :=
    match envPath with
    | Some (c :: p) => c :: p
    | _ => []                       (* process.env.PATH || '' *)
    end in
  uniq (split_on COLON currentPath ++ additionalPaths localBin bin).

Definition getEnhancedPath (envPath : option jsstring) (localBin bin : jsstring)
  : jsstring :=
  join [COLON] (enhancedEntries envPath localBin bin).

Definition colon_free (s : jsstring) : bool :=
  forallb (fun c => negb (c =? COLON)) s.

End Env.

(** ** Words of a command line *)

Module Words.
Import Js.

(** No white space in [s]. *)
Definition space_free (s : jsstring) : bool :=
  forallb (fun c => negb (is_space c)) s.

(** A non-empty run of characters that are not white space. *)
Definition word (s : jsstring) : Prop := s <> [] /\ space_free s = true.

End Words.

(** ** States of the line editor *)

Module EditorStates.
Import Js View.

(** The state in which a submitted command is dispatched. *)
Definition submitted (c : jsstring) (st : view) : view :=
  set_processingInput false
    (set_currentCommand []
       (set_historyIndex (len (commandHistory st) + 1)
          (set_commandHistory (commandHistory st ++ [c]) st))).

(** The line editor is the one that reads the keys. *)
Definition editing (st : view) : Prop :=
  ptyProcess st = None /\ processingInput st = false.

(** An entry of the history as the editor stores it: not empty, and
    without white space at either end. *)
Definition trimmed (c : jsstring) : Prop :=
  c <> [] /\ is_space (hd 0 c) = false /\ is_space (last c 0) = false.

Definition history_ok (st : view) : Prop := Forall trimmed (commandHistory st).

Definition hkeeps {A} (m : M A) : Prop :=
  forall st, history_ok st -> history_ok (state_of (m st)).

Definition is_kill (e : effect) : bool :=
  match e with
  | Kill _ _ => true
  | _ => false
  end.

(** The single keys of a text. *)
Definition keys_of (s : jsstring) : list jsstring := map (fun c => [c]) s.

Definition printable (s : jsstring) : bool :=
  forallb (fun c => (32 <=? c) && (c <? 127)) s.

(** The end of the trace of [showPrompt]. *)
Definition prompt_effects (w : world) (st : view) : list effect :=
  [TermWrite (if promptShown st then crlf ++ promptText w st
              else promptText w st);
   TermScrollToBottom; SetTimeout 50 T_refresh].

(** An installation with a default command that is run automatically. *)
Definition with_default (c : jsstring) (w : world) : world := {|
  w_settings := {| defaultCommand := c; autoRunCommand := true |};
  w_username := w_username w;
  w_hostname := w_hostname w;
  w_homedir := w_homedir w;
  w_win32 := w_win32 w;
  w_node_pty := w_node_pty w;
  w_shell := w_shell w;
  w_which := w_which w;
  w_check := w_check w;
  w_resolve := w_resolve w;
  w_chdir := w_chdir w;
  w_kill := w_kill w;
  w_json := w_json w;
  w_number := w_number w
|}.

End EditorStates.

(** ** Child-process handles over time *)

Module Handles.
Import Js View.

(** The flags of a handle only ever move one way: a session that has ended
    stays ended, a delivered signal stays delivered, output once seen stays
    seen; kind and command name are fixed at the spawn. *)
Definition ages (pr pr' : proc) : Prop :=
  p_kind pr' = p_kind pr
  /\ p_cmd pr' = p_cmd pr
  /\ (p_live pr = false -> p_live pr' = false)
  /\ (p_killed pr = true -> p_killed pr' = true)
  /\ (p_output pr = true -> p_output pr' = true).

(** Handles are never dropped or renumbered. *)
Definition grows (l l' : list proc) : Prop :=
  forall p pr, nth_error l p = Some pr ->
    exists pr', nth_error l' p = Some pr' /\ ages pr pr'.

Definition stable {A} (m : M A) : Prop :=
  forall st, grows (procs st) (procs (state_of (m st))).

(** The session of handle [p] has ended. *)
Definition ended (st : view) (p : nat) : Prop :=
  exists pr, nth_error (procs st) p = Some pr /\ p_live pr = false.

(** Handle [p] has produced output. *)
Definition heard (st : view) (p : nat) : Prop :=
  exists pr, nth_error (procs st) p = Some pr /\ p_output pr = true.

(** The timers of a claude session that act on the session. *)
Definition claude_timers (p : nat) : list timer :=
  [T_claudeHello p; T_claudeNudge p; T_claudeWarn p; T_claudeFinal p].

(** The timers that only act while the session is silent. *)
Definition nudges (p : nat) : list timer :=
  [T_claudeNudge p; T_claudeWarn p; T_claudeFinal p].

(** A computation that does nothing in a state. *)
Definition silent (m : M unit) (st : view) : Prop := m st = (tt, st, []).

Definition is_session (k : session_kind) : bool :=
  match k with
  | K_claude | K_interactive | K_simple => true
  | _ => false
  end.

End Handles.

(** * Properties *)

Module JsFacts.
Import Js.

Lemma eqb_spec (a b : jsstring) : reflect (a = b) (eqb a b).
Proof.
  revert b; induction a as [|x a IH]; intros [|y b]; simpl;
    try (constructor; congruence).
  destruct (Z.eqb_spec x y) as [->|Hxy]; simpl.
  - destruct (IH b) as [->|Hab]; constructor; congruence.
  - constructor; congruence.
Qed.

Lemma eqb_refl (a : jsstring) : eqb a a = true.
Proof. destruct (eqb_spec a a); congruence. Qed.

Lemma eqb_eq (a b : jsstring) : eqb a b = true <-> a = b.
Proof. destruct (eqb_spec a b); split; congruence. Qed.

Lemma eqb_neq (a b : jsstring) : eqb a b = false <-> a <> b.
Proof. destruct (eqb_spec a b); split; congruence. Qed.

Lemma startsWith_refl (s : jsstring) : startsWith s s = true.
Proof. induction s as [|c s IH]; simpl; [|rewrite Z.eqb_refl; simpl]; auto. Qed.

Lemma startsWith_app (p s : jsstring) : startsWith (p ++ s) p = true.
Proof. induction p as [|c p IH]; simpl; [|rewrite Z.eqb_refl; simpl]; auto. Qed.

(** The line-ending pass leaves no bare line feed, whatever precedes. *)
Lemma crlf_from_no_bare_lf (s : jsstring) (b : bool) :
  no_bare_lf_from b (crlf_from b s) = true.
Proof.
  revert b; induction s as [|c s IH]; intro b; simpl; [reflexivity|].
  destruct (Z.eqb_spec c LF) as [->|Hc]; simpl.
  - destruct b; simpl.
    + apply (IH false).
    + apply (IH false).
  - destruct (Z.eqb_spec c LF); [contradiction|]. simpl. apply IH.
Qed.

(** Text without a line feed passes the line-ending pass unchanged. *)
Lemma crlf_from_no_lf (s : jsstring) (b : bool) :
  ~ In LF s -> crlf_from b s = s.
Proof.
  revert b; induction s as [|c s IH]; intros b H; simpl; [reflexivity|].
  destruct (Z.eqb_spec c LF) as [->|Hc].
  - exfalso; apply H; left; reflexivity.
  - simpl. f_equal. apply IH. intro Hin; apply H; right; exact Hin.
Qed.

End JsFacts.

(** ** Reasoning about computations *)

Module Logic.
Import Js View.
Export Assert.

Lemma wp_ret {A} (a : A) Q st : Q a st -> wp (ret a) Q st.
Proof. exact (fun H => H). Qed.

Lemma wp_get Q st : Q st st -> wp get Q st.
Proof. exact (fun H => H). Qed.

Lemma wp_emit e Q st : Q tt st -> wp (emit e) Q st.
Proof. exact (fun H => H). Qed.

Lemma wp_modify f Q st : Q tt (f st) -> wp (modify f) Q st.
Proof. exact (fun H => H). Qed.

Lemma wp_bind {A B} (m : M A) (k : A -> M B) Q st :
  wp m (fun a st1 => wp (k a) Q st1) st -> wp (bind m k) Q st.
Proof.
  unfold wp, bind, value_of, state_of.
  destruct (m st) as [[a st1] e1]; simpl.
  destruct (k a st1) as [[b st2] e2]; simpl. exact (fun H => H).
Qed.

Lemma wp_mono {A} (m : M A) (Q R : A -> view -> Prop) st :
  (forall a st', Q a st' -> R a st') -> wp m Q st -> wp m R st.
Proof. unfold wp; auto. Qed.

Lemma state_of_bind {A B} (m : M A) (k : A -> M B) st :
  state_of (bind m k st) = state_of (k (value_of (m st)) (state_of (m st))).
Proof.
  unfold bind, state_of, value_of. destruct (m st) as [[a st1] e1]; simpl.
  destruct (k a st1) as [[b st2] e2]; reflexivity.
Qed.

Lemma value_of_bind {A B} (m : M A) (k : A -> M B) st :
  value_of (bind m k st) = value_of (k (value_of (m st)) (state_of (m st))).
Proof.
  unfold bind, state_of, value_of. destruct (m st) as [[a st1] e1]; simpl.
  destruct (k a st1) as [[b st2] e2]; reflexivity.
Qed.

Lemma trace_of_bind {A B} (m : M A) (k : A -> M B) st :
  trace_of (bind m k st)
  = trace_of (m st) ++ trace_of (k (value_of (m st)) (state_of (m st))).
Proof.
  unfold bind, state_of, value_of, trace_of.
  destruct (m st) as [[a st1] e1]; simpl.
  destruct (k a st1) as [[b st2] e2]; reflexivity.
Qed.

Lemma frames_ret {A} (a : A) : frames (ret a).
Proof. intro st; reflexivity. Qed.

Lemma frames_get : frames get.
Proof. intro st; reflexivity. Qed.

Lemma frames_emit e : frames (emit e).
Proof. intro st; reflexivity. Qed.

Lemma frames_modify f :
  (forall st, editor_core (f st) = editor_core st) -> frames (modify f).
Proof. intros H st; apply H. Qed.

Lemma frames_bind {A B} (m : M A) (k : A -> M B) :
  frames m -> (forall a, frames (k a)) -> frames (bind m k).
Proof.
  intros Hm Hk st. unfold frames, bind, state_of in *.
  specialize (Hm st). destruct (m st) as [[a st1] e1]. simpl in Hm.
  specialize (Hk a st1). destruct (k a st1) as [[b st2] e2]. simpl in *.
  congruence.
Qed.

Lemma frames_spawn k c c' a : frames (spawn k c c' a).
Proof. intro st; reflexivity. Qed.

Lemma wp_frames {A} (m : M A) Q st :
  frames m ->
  (forall a st', editor_core st' = editor_core st -> Q a st') ->
  wp m Q st.
Proof. intros Hm H. apply H, Hm. Qed.

Create HintDb frames.
#[export] Hint Resolve frames_ret frames_get frames_emit frames_spawn : frames.

Ltac frames_step :=
  match goal with
  | |- frames (bind _ _) => apply frames_bind; [| intro]
  | |- frames (modify _) => apply frames_modify; intro; reflexivity
  | |- frames (if ?b then _ else _) => destruct b
  | |- frames (match ?x with _ => _ end) => destruct x
  | |- frames _ => solve [auto with frames]
  end.

Ltac frames_tac := repeat frames_step.

Lemma frames_write s : frames (write s).
Proof. unfold write; frames_tac. Qed.
#[export] Hint Resolve frames_write : frames.

Lemma frames_update_proc p f : frames (update_proc p f).
Proof. unfold update_proc; frames_tac. Qed.
#[export] Hint Resolve frames_update_proc : frames.

Lemma frames_kill w p s : frames (kill w p s).
Proof. unfold kill; frames_tac. Qed.
#[export] Hint Resolve frames_kill : frames.

Lemma frames_showPrompt w : frames (showPrompt w).
Proof. unfold showPrompt; frames_tac. Qed.
#[export] Hint Resolve frames_showPrompt : frames.

Lemma frames_write_times n s : frames (write_times n s).
Proof. induction n; simpl; frames_tac. Qed.
#[export] Hint Resolve frames_write_times : frames.

Lemma frames_replaceCurrentCommand c : frames (replaceCurrentCommand c).
Proof. unfold replaceCurrentCommand; frames_tac. Qed.
#[export] Hint Resolve frames_replaceCurrentCommand : frames.

Lemma frames_filterClaudeOutput c : frames (filterClaudeOutput c).
Proof. unfold filterClaudeOutput; frames_tac. Qed.
#[export] Hint Resolve frames_filterClaudeOutput : frames.

Lemma frames_testCommandAvailable w c : frames (testCommandAvailable w c).
Proof. unfold testCommandAvailable; frames_tac. Qed.
#[export] Hint Resolve frames_testCommandAvailable : frames.

Lemma frames_chooseStrategy w a : frames (chooseStrategy w a).
Proof. unfold chooseStrategy; frames_tac. Qed.
#[export] Hint Resolve frames_chooseStrategy : frames.

Lemma frames_handleClaudeCommand w a : frames (handleClaudeCommand w a).
Proof. unfold handleClaudeCommand; frames_tac. Qed.
#[export] Hint Resolve frames_handleClaudeCommand : frames.

Lemma frames_runCheck w p evs b : frames (runCheck w p evs b).
Proof.
  revert b; induction evs as [|e evs IH]; intro b; simpl; [frames_tac|].
  destruct e; frames_tac; auto.
Qed.
#[export] Hint Resolve frames_runCheck : frames.

Lemma frames_executeCommand w c : frames (executeCommand w c).
Proof. unfold executeCommand, handleInteractiveCommand; frames_tac. Qed.
#[export] Hint Resolve frames_executeCommand : frames.

Lemma frames_detach : frames detach.
Proof. unfold detach; frames_tac. Qed.
#[export] Hint Resolve frames_detach : frames.

Lemma frames_show c : frames (show c).
Proof. unfold show; frames_tac. Qed.
#[export] Hint Resolve frames_show : frames.

Lemma frames_onStdout p c : frames (onStdout p c).
Proof. unfold onStdout; frames_tac. Qed.

Lemma frames_onStderr p c : frames (onStderr p c).
Proof. unfold onStderr; frames_tac. Qed.

Lemma frames_onError w p m : frames (onError w p m).
Proof. unfold onError; frames_tac. Qed.

Lemma frames_onExit w p c s : frames (onExit w p c s).
Proof. unfold onExit; frames_tac. Qed.

Lemma frames_onProcClose w p : frames (onProcClose w p).
Proof. unfold onProcClose; frames_tac. Qed.

Lemma frames_onClose w : frames (onClose w).
Proof. unfold onClose; frames_tac. Qed.

Lemma frames_claudeInputHandler p d : frames (claudeInputHandler p d).
Proof. unfold claudeInputHandler; frames_tac. Qed.

Lemma frames_interactiveInputHandler w p d :
  frames (interactiveInputHandler w p d).
Proof. unfold interactiveInputHandler; frames_tac. Qed.

Lemma frames_claudeSimpleHandler p d : frames (claudeSimpleHandler p d).
Proof. unfold claudeSimpleHandler; frames_tac. Qed.

#[export] Hint Resolve frames_onStdout frames_onStderr frames_onError
  frames_onExit frames_onProcClose frames_onClose frames_claudeInputHandler
  frames_interactiveInputHandler frames_claudeSimpleHandler : frames.

Lemma Inv_core st st' : editor_core st' = editor_core st -> Inv st -> Inv st'.
Proof.
  unfold editor_core, Inv. intros H [H1 H2].
  injection H as Hh Hi Hp. rewrite Hh, Hi, Hp. auto.
Qed.

Lemma frames_keeps {A} (m : M A) : frames m -> keeps m.
Proof. intros H st. apply Inv_core, H. Qed.

Lemma keeps_bind {A B} (m : M A) (k : A -> M B) :
  keeps m -> (forall a, keeps (k a)) -> keeps (bind m k).
Proof.
  intros Hm Hk st HI. unfold keeps, bind, state_of in *.
  specialize (Hm st HI). destruct (m st) as [[a st1] e1]. simpl in Hm.
  specialize (Hk a st1 Hm). destruct (k a st1) as [[b st2] e2]. exact Hk.
Qed.

Lemma len_app_one {A} (l : list A) (x : A) : len (l ++ [x]) = len l + 1.
Proof. unfold len. rewrite length_app. simpl. lia. Qed.

Lemma len_nonneg {A} (l : list A) : 0 <= len l.
Proof. unfold len; lia. Qed.

Ltac wp_step :=
  match goal with
  | |- wp (bind _ _) _ _ => apply wp_bind
  | |- wp get _ _ => apply wp_get
  | |- wp (ret _) _ _ => apply wp_ret
  | |- wp (emit _) _ _ => apply wp_emit
  | |- wp (write _) _ _ => apply wp_emit
  | |- wp (modify _) _ _ => apply wp_modify
  end.

Lemma keeps_handleInput w data : keeps (handleInput w data).
Proof.
  intros st [Hp Hc]. change (wp (handleInput w data) (fun _ s => Inv s) st).
  unfold handleInput. wp_step. wp_step.
  destruct (is_some (ptyProcess st)); [wp_step; split; assumption|].
  rewrite Hp. repeat wp_step.
  assert (Hfin : forall (m : M unit) s,
             frames m -> cursor_ok (commandHistory s) (historyIndex s) ->
             wp (bind m (fun _ => modify (set_processingInput false)))
                (fun _ s' => Inv s') s).
  { intros m s Hm Hs. wp_step. apply wp_frames; [exact Hm|].
    intros _ s' Hs'. wp_step. split; [reflexivity|].
    injection Hs' as Hh Hi _. simpl. rewrite Hh, Hi. exact Hs. }
  destruct (eqb data [CR]).
  { repeat wp_step. simpl.
    destruct (nonempty (trim (currentCommand st))).
    - repeat wp_step. apply wp_frames; [auto with frames|].
      intros _ s' Hs'. eapply Inv_core; [exact Hs'|].
      split; [reflexivity|]. right. simpl. rewrite len_app_one.
      pose proof (len_nonneg (commandHistory st)). lia.
    - repeat wp_step. apply wp_frames; [auto with frames|].
      intros _ s' Hs'. eapply Inv_core; [exact Hs'|].
      split; [reflexivity|exact Hc]. }
  destruct (eqb data [DEL] || eqb data [BS]).
  { wp_step. wp_step. simpl. apply Hfin; [frames_tac|exact Hc]. }
  destruct (eqb data [ETX]).
  { wp_step. wp_step. simpl. apply Hfin; [frames_tac|exact Hc]. }
  destruct (eqb data UP).
  { wp_step. wp_step. simpl.
    destruct (Z.ltb_spec 0 (historyIndex st)) as [Hlt|Hge].
    - repeat wp_step.
      match goal with
      | |- wp ?m _ _ => apply (wp_frames m); [frames_tac|]
      end.
      intros _ s' Hs'. wp_step. split; [reflexivity|].
      injection Hs' as Hh Hi _. simpl in *. rewrite Hh, Hi.
      right. destruct Hc as [[Hc _]|Hc]; lia.
    - apply Hfin; [frames_tac|exact Hc]. }
  destruct (eqb data DOWN).
  { wp_step. wp_step. simpl.
    destruct (Z.ltb_spec (historyIndex st) (len (commandHistory st) - 1))
      as [Hlt|Hge].
    - repeat wp_step.
      match goal with
      | |- wp ?m _ _ => apply (wp_frames m); [frames_tac|]
      end.
      intros _ s' Hs'. wp_step. split; [reflexivity|].
      injection Hs' as Hh Hi _. simpl in *. rewrite Hh, Hi.
      right. destruct Hc as [[Hc Hh']|Hc]; [|lia].
      rewrite Hh' in Hlt. unfold len in Hlt. simpl in Hlt. lia.
    - destruct (Z.eqb_spec (historyIndex st) (len (commandHistory st) - 1))
        as [Heq|Hne].
      + repeat wp_step.
        match goal with
        | |- wp ?m _ _ => apply (wp_frames m); [frames_tac|]
        end.
        intros _ s' Hs'. wp_step. split; [reflexivity|].
        injection Hs' as Hh Hi _. simpl in *. rewrite Hh, Hi.
        right. pose proof (len_nonneg (commandHistory st)). lia.
      + apply Hfin; [frames_tac|exact Hc]. }
  destruct (printableFirst data).
  { repeat wp_step. split; [reflexivity|exact Hc]. }
  wp_step. split; [reflexivity|exact Hc].
Qed.

End Logic.

(** ** The line editor *)

Module Editor.
Import Js View Logic.

Lemma keeps_startBasicShell w : keeps (startBasicShell w).
Proof.
  intros st [Hp _]. change (wp (startBasicShell w) (fun _ s => Inv s) st).
  unfold startBasicShell. repeat wp_step.
  match goal with
  | |- wp ?m _ _ => apply (wp_frames m); [frames_tac|]
  end.
  intros _ s' Hs'. repeat wp_step. eapply Inv_core; [exact Hs'|].
  split; [exact Hp|]. left. split; reflexivity.
Qed.

Lemma keeps_startPty w : keeps (startPty w).
Proof.
  unfold startPty. destruct (w_node_pty w).
  - apply frames_keeps. frames_tac.
  - apply keeps_startBasicShell.
Qed.

Lemma keeps_restartTerminal w : keeps (restartTerminal w).
Proof.
  intros st _. change (wp (restartTerminal w) (fun _ s => Inv s) st).
  unfold restartTerminal. repeat wp_step.
  match goal with
  | |- wp ?m _ _ => apply (wp_frames m); [frames_tac|]
  end.
  intros _ s' _. repeat wp_step.
  apply keeps_startPty. split; [reflexivity|]. left. split; reflexivity.
Qed.

Lemma keeps_onTimer w t : keeps (onTimer w t).
Proof.
  destruct t;
    try (solve [apply frames_keeps; unfold onTimer, checkTimeout; frames_tac]).
  unfold onTimer. apply keeps_bind; [apply frames_keeps; frames_tac|].
  intros _. apply keeps_handleInput.
Qed.

Lemma keeps_runHandler w h data : keeps (runHandler w h data).
Proof.
  destruct h; simpl; try (solve [apply frames_keeps; frames_tac]).
  apply keeps_handleInput.
Qed.

Lemma keeps_deliver w hs data : keeps (deliver w hs data).
Proof.
  induction hs as [|h hs IH]; simpl.
  - apply frames_keeps; frames_tac.
  - apply keeps_bind; [apply keeps_runHandler|intros _; exact IH].
Qed.

Lemma keeps_feed w keys : keeps (feed w keys).
Proof.
  induction keys as [|k keys IH]; simpl.
  - apply frames_keeps; frames_tac.
  - apply keeps_bind; [apply keeps_handleInput|intros _; exact IH].
Qed.

Lemma keeps_react w hs ev : keeps (react w hs ev).
Proof.
  destruct ev; simpl; try (apply frames_keeps; auto with frames; fail).
  - apply keeps_startPty.
  - apply keeps_deliver.
  - apply keeps_onTimer.
  - apply keeps_restartTerminal.
Qed.

Lemma Inv_new_view dir : Inv (new_view dir).
Proof. split; [reflexivity|]. left. split; reflexivity. Qed.

Lemma run_cons w sub pn ev evs :
  fst (run w sub pn (ev :: evs)) = fst (run w sub (fst (step w sub pn ev)) evs).
Proof.
  cbn [run]. destruct (step w sub pn ev) as [pn1 t1]. cbn [fst].
  destruct (run w sub pn1 evs) as [pn2 t2]. reflexivity.
Qed.

Lemma run_app w sub pn evs evs' :
  fst (run w sub pn (evs ++ evs'))
  = fst (run w sub (fst (run w sub pn evs)) evs').
Proof.
  revert pn; induction evs as [|ev evs IH]; intro pn; [reflexivity|].
  rewrite <- app_comm_cons, !run_cons. apply IH.
Qed.

(** The invariant holds after every event, whatever the display does with
    its subscriptions. *)
Lemma Inv_run w sub pn evs :
  Inv (pv pn) -> Inv (pv (fst (run w sub pn evs))).
Proof.
  revert pn; induction evs as [|ev evs IH]; intros pn H; [exact H|].
  rewrite run_cons. apply IH. simpl. apply keeps_react, H.
Qed.

Lemma Inv_reached w sub dir evs : Inv (reached w sub dir evs).
Proof. apply Inv_run, Inv_new_view. Qed.

(** C4 (as stated, refuted): right after the panel opens, an up-arrow
    leaves the history cursor at -1, below the claimed lower bound 0. *)
Lemma history_cursor_below_zero :
  let st := reached Sample.bare single_subscription Sample.home
              [E_open; E_data UP] in
  ~ (0 <= historyIndex st <= len (commandHistory st)).
Proof. vm_compute. intros [H _]. apply H. reflexivity. Qed.

(** C4 (amended): in every state the panel reaches, by arrows or any other
    events, the history cursor is either the initial -1 over a still empty
    history, or lies in [0, length(History)], where length denotes the new
    empty entry; hence -1 <= historyIndex <= length(History) throughout. *)
Theorem history_cursor_bounds w sub dir evs :
  let st := reached w sub dir evs in
  ((historyIndex st = -1 /\ commandHistory st = [])
   \/ 0 <= historyIndex st <= len (commandHistory st))
  /\ -1 <= historyIndex st <= len (commandHistory st).
Proof.
  intro st. destruct (Inv_reached w sub dir evs) as [_ H].
  fold st in H. split; [exact H|].
  destruct H as [[Hi Hh]|H]; [|lia].
  rewrite Hi, Hh. unfold len; simpl; lia.
Qed.

Lemma printableFirst_not (data : jsstring) (c : Z) (l : jsstring) :
  printableFirst data = true -> (c <? 32) || (127 <=? c) = true ->
  eqb data (c :: l) = false.
Proof.
  destruct data as [|d data]; [reflexivity|].
  unfold printableFirst; simpl. intros Hd Hc.
  destruct (Z.eqb_spec d c) as [->|]; [|reflexivity]. lia.
Qed.



(** One keystroke of the editing kind does to the buffer what the
    specification says, and touches nothing else. *)
Lemma handleInput_editing w st data :
  ptyProcess st = None -> processingInput st = false ->
  EditorSpec.editing_key data = true ->
  state_of (handleInput w data st)
  = set_currentCommand (EditorSpec.key_effect (currentCommand st) data) st.
Proof.
  intros Hpty Hp Hk. unfold EditorSpec.editing_key in Hk.
  apply andb_prop in Hk; destruct Hk as [Hk Hone].
  apply andb_prop in Hk; destruct Hk as [Hk Hdown].
  apply andb_prop in Hk; destruct Hk as [Hk Hup].
  apply andb_prop in Hk; destruct Hk as [Hcr Hetx].
  apply negb_true_iff in Hcr, Hetx, Hup, Hdown.
  unfold handleInput, bind, get, modify, write, emit, ret, state_of.
  rewrite Hpty, Hp. simpl. rewrite Hcr.
  destruct (JsFacts.eqb_spec data [DEL]) as [->|Hdel]; simpl.
  { destruct st as [? buf ? ? ? ? ? ? ? ?]; simpl in *; subst.
    unfold len. destruct buf; simpl; reflexivity. }
  destruct (JsFacts.eqb_spec data [BS]) as [->|Hbs]; simpl.
  { destruct st as [? buf ? ? ? ? ? ? ? ?]; simpl in *; subst.
    unfold len. destruct buf; simpl; reflexivity. }
  rewrite Hetx, Hup, Hdown.
  destruct (printableFirst data) eqn:Hpr; simpl in *.
  - destruct data as [|c [|d data]]; try discriminate.
    unfold printableFirst in Hpr; simpl in Hpr.
    assert (Hc : EditorSpec.is_printable c = true)
      by (unfold EditorSpec.is_printable; lia).
    cbn [EditorSpec.key_effect]. rewrite Hc.
    destruct st; simpl in *; subst; reflexivity.
  - assert (Hsame : EditorSpec.key_effect (currentCommand st) data
                    = currentCommand st).
    { destruct data as [|c [|d data]]; try reflexivity.
      unfold printableFirst in Hpr; simpl in Hpr.
      assert (Hc : EditorSpec.is_printable c = false)
        by (unfold EditorSpec.is_printable; lia).
      cbn [EditorSpec.key_effect]. rewrite Hc.
      destruct (Z.eqb_spec c DEL) as [->|]; [congruence|].
      destruct (Z.eqb_spec c BS) as [->|]; [congruence|]. reflexivity. }
    rewrite Hsame. destruct st; simpl in *; subst; reflexivity.
Qed.

Lemma feed_editing w keys : forall st,
  ptyProcess st = None -> processingInput st = false ->
  forallb EditorSpec.editing_key keys = true ->
  state_of (feed w keys st)
  = set_currentCommand (EditorSpec.buffer_after (currentCommand st) keys) st.
Proof.
  induction keys as [|k keys IH]; intros st Hpty Hp Hk.
  - destruct st; reflexivity.
  - simpl in Hk. apply andb_prop in Hk. destruct Hk as [Hk Hks].
    cbn [feed]. rewrite state_of_bind, handleInput_editing by assumption.
    rewrite IH by (try assumption; destruct st; assumption).
    destruct st; reflexivity.
Qed.

(** C7 (as stated, refuted): Enter is a keystroke too, and it empties the
    buffer that the claim says it leaves alone. *)
Lemma enter_empties_buffer :
  let st := reached Sample.bare single_subscription Sample.home [E_open] in
  let keys := [js "a"; [CR]] in
  ptyProcess st = None
  /\ currentCommand (state_of (feed Sample.bare keys st))
     <> EditorSpec.buffer_after (currentCommand st) keys.
Proof. vm_compute. split; [reflexivity|discriminate]. Qed.

(** C7 (amended): in every reachable state without an active session, a
    finite sequence of keystrokes none of which is Enter, Ctrl+C or an
    up/down arrow leaves the command buffer equal to the buffer before with
    each printable ASCII character appended and each backspace removing the
    last character (if any), in event order; the other control sequences
    leave it unchanged, and nothing but the buffer changes. *)
Theorem buffer_follows_keystrokes w sub dir evs keys :
  let st := reached w sub dir evs in
  ptyProcess st = None ->
  forallb EditorSpec.editing_key keys = true ->
  currentCommand (state_of (feed w keys st))
  = EditorSpec.buffer_after (currentCommand st) keys
  /\ state_of (feed w keys st)
     = set_currentCommand (currentCommand (state_of (feed w keys st))) st.
Proof.
  intros st Hpty Hk.
  destruct (Inv_reached w sub dir evs) as [Hp _]. fold st in Hp.
  rewrite (feed_editing w keys st Hpty Hp Hk). split; reflexivity.
Qed.

(** Typing [ls], a tabulator, two backspaces, DEL on the empty buffer
    and [pwd] at the first prompt. *)
Lemma buffer_follows_keystrokes_witness :
  let st := reached Sample.bare single_subscription Sample.home [E_open] in
  let keys := [js "l"; js "s"; [TAB]; [DEL]; [BS]; [DEL];
               js "p"; js "w"; js "d"] in
  currentCommand (state_of (feed Sample.bare keys st)) = js "pwd".
Proof.
  intros st keys.
  exact (proj1 (buffer_follows_keystrokes
                  Sample.bare single_subscription Sample.home [E_open] keys
                  eq_refl eq_refl)).
Defined.

End Editor.

(** ** The output filter *)

Module Filter.
Import Js View Logic.

(** A chunk that is one clear-screen triple: normalised while the counter
    stays at or below 2, stripped above. *)
Lemma filter_triple st :
  filterClaudeOutput triple st
  = (if 2 <? clearScreenCount st + 1 then [] else simpleClear,
     set_filter (lastClaudeOutput st) (clearScreenCount st + 1) st,
     if 2 <? clearScreenCount st + 1 then [ConsoleLog] else []).
Proof.
  unfold filterClaudeOutput.
  change (countMatches (lit clearScreenPattern) triple) with 1.
  unfold bind, get, modify, emit, ret. simpl.
  destruct (2 <? clearScreenCount st + 1).
  - change (stripAnsi (replaceAll (lit clearScreenPattern) [] triple)) with (@nil Z).
    simpl. rewrite andb_false_r. reflexivity.
  - change (stripAnsi (replaceAll (lit clearScreenPattern) simpleClear triple))
      with (@nil Z).
    simpl. rewrite andb_false_r. reflexivity.
Qed.

(** A chunk without a triple: only the line endings change; its stripped
    content resets the counter when it is new and longer than 50. *)
Lemma filter_plain c st :
  countMatches (lit clearScreenPattern) c = 0 ->
  filterClaudeOutput c st
  = (normalizeLineEndings c,
     if negb (eqb (stripAnsi c) (lastClaudeOutput st))
        && (50 <? len (stripAnsi c))
     then set_filter (stripAnsi c) 0 st else st,
     []).
Proof.
  intro H. unfold filterClaudeOutput. rewrite H.
  unfold bind, get, modify, emit, ret. simpl.
  destruct (negb (eqb (stripAnsi c) (lastClaudeOutput st))
            && (50 <? len (stripAnsi c))); reflexivity.
Qed.

(** Whatever the chunk, the filter's result has no bare line feed. *)
Lemma filter_no_bare_lf c st :
  no_bare_lf (value_of (filterClaudeOutput c st)) = true.
Proof.
  unfold filterClaudeOutput.
  rewrite value_of_bind.
  match goal with
  | |- context [value_of (?m st)] => generalize (value_of (m st))
  end.
  match goal with
  | |- context [state_of (?m st)] => generalize (state_of (m st))
  end.
  intros st1 filtered. rewrite value_of_bind. unfold get at 1. simpl.
  rewrite value_of_bind.
  unfold ret at 2. unfold value_of at 1. simpl.
  apply JsFacts.crlf_from_no_bare_lf.
Qed.

(** C2 (as stated, refuted): after three triples, a chunk of exactly 50
    new characters does not reset the counter, and the next triple is
    stripped instead of passing through. *)
Lemma fifty_characters_do_not_reset :
  let st := new_view Sample.home in
  let c := repeat 120 50 in
  clearScreenCount st = 0
  /\ 50 <= len (stripAnsi c)
  /\ stripAnsi c <> lastClaudeOutput st
  /\ value_of (filterChunks [triple; triple; triple; c; triple] st)
     = [simpleClear; simpleClear; []; c; []].
Proof. vm_compute. repeat split; discriminate. Qed.

Lemma filterChunks_cons c cs st :
  value_of (filterChunks (c :: cs) st)
  = value_of (filterClaudeOutput c st)
    :: value_of (filterChunks cs (state_of (filterClaudeOutput c st))).
Proof.
  cbn [filterChunks]. rewrite !value_of_bind. reflexivity.
Qed.

Lemma filterChunks_state c cs st :
  state_of (filterChunks (c :: cs) st)
  = state_of (filterChunks cs (state_of (filterClaudeOutput c st))).
Proof.
  cbn [filterChunks]. rewrite !state_of_bind. reflexivity.
Qed.

(** C2 (amended): with the counter at zero, three chunks that each are one
    clear-screen triple come out as normalised clear-and-home, normalised
    clear-and-home, and nothing; after that, a chunk without a triple whose
    ANSI-stripped content is longer than 50 characters and differs from the
    last recorded content resets the counter to zero, and a triple in the
    chunk that follows passes through normalised again. *)
Theorem clear_screen_suppression st c :
  clearScreenCount st = 0 ->
  countMatches (lit clearScreenPattern) c = 0 ->
  50 < len (stripAnsi c) ->
  stripAnsi c <> lastClaudeOutput st ->
  value_of (filterChunks [triple; triple; triple; c; triple] st)
  = [simpleClear; simpleClear; []; normalizeLineEndings c; simpleClear]
  /\ clearScreenCount (state_of (filterChunks [triple; triple; triple] st)) = 3
  /\ clearScreenCount (state_of (filterChunks [triple; triple; triple; c] st)) = 0.
Proof.
  intros H0 Hc Hlen Hnew.
  assert (Hcond : forall s, lastClaudeOutput s = lastClaudeOutput st ->
            negb (eqb (stripAnsi c) (lastClaudeOutput s))
            && (50 <? len (stripAnsi c)) = true).
  { intros s ->. apply andb_true_intro. split.
    - apply negb_true_iff, JsFacts.eqb_neq, Hnew.
    - apply Z.ltb_lt, Hlen. }
  assert (Hnil : filterChunks [] = ret []) by reflexivity.
  repeat split;
    repeat first
      [ rewrite filterChunks_cons
      | rewrite filterChunks_state
      | rewrite filter_triple
      | rewrite filter_plain by exact Hc
      | rewrite Hcond by reflexivity
      | rewrite H0
      | progress cbn [value_of state_of fst snd clearScreenCount set_filter
                      lastClaudeOutput] ];
    reflexivity.
Qed.

(** Fifty-one new characters between the third and the fourth triple. *)
Lemma clear_screen_suppression_witness :
  value_of (filterChunks [triple; triple; triple; repeat 120 51; triple] (new_view Sample.home))
  = [simpleClear; simpleClear; []; repeat 120 51; simpleClear].
Proof.
  refine (proj1 (clear_screen_suppression
                   (new_view Sample.home) (repeat 120 51) _ _ _ _)).
  - reflexivity.
  - reflexivity.
  - vm_compute. reflexivity.
  - vm_compute. discriminate.
Defined.

(** Three triples that arrive in one chunk are counted together and all
    three are stripped. *)
Lemma three_triples_in_one_chunk :
  value_of (filterChunks [triple ++ triple ++ triple] (new_view Sample.home)) = [[]].
Proof. reflexivity. Qed.

Lemma written_app t1 t2 : written (t1 ++ t2) = written t1 ++ written t2.
Proof.
  induction t1 as [|e t1 IH]; [reflexivity|].
  destruct e; simpl; rewrite ?IH; reflexivity.
Qed.

(** The filter itself writes nothing to the display. *)
Lemma filter_writes_nothing c st :
  written (trace_of (filterClaudeOutput c st)) = [].
Proof.
  unfold filterClaudeOutput, bind, get, modify, emit, ret, trace_of.
  destruct (0 <? countMatches (lit clearScreenPattern) c); simpl.
  - destruct (2 <? clearScreenCount st + countMatches (lit clearScreenPattern) c);
      simpl;
      match goal with
      | |- context [if ?b then _ else _] => destruct b
      end; reflexivity.
  - match goal with
    | |- context [if ?b then _ else _] => destruct b
    end; reflexivity.
Qed.

(** What reaches the display from one chunk of a claude session. *)
Lemma claude_chunk_shown (pre : M unit) c st :
  written (trace_of (pre st)) = [] ->
  written (trace_of ((pre ;; output <- filterClaudeOutput c ;; show output) st))
  = [value_of (filterClaudeOutput c (state_of (pre st)))].
Proof.
  intro Hpre. rewrite trace_of_bind, written_app, Hpre.
  rewrite trace_of_bind, written_app, filter_writes_nothing. reflexivity.
Qed.

(** C3 (as stated, refuted): a python session is Running and emits
    [hello] and a line feed; the display receives the chunk as it is (from
    both listeners of the stream), not [hello] CR LF. *)
Lemma interactive_output_is_not_normalised :
  let evs := [E_open] ++ Sample.typed (js "python") in
  let pn := fst (run Sample.equipped single_subscription
                     (closed_panel Sample.home) evs) in
  let chunk := js "hello" ++ [LF] in
  ptyProcess (pv pn) = Some 1%nat
  /\ written (snd (step Sample.equipped single_subscription pn
                        (E_stdout 1 chunk)))
     = [chunk; chunk]
  /\ chunk <> js "hello" ++ [CR; LF].
Proof. vm_compute. repeat split. discriminate. Qed.

(** C3 (amended): for a session started by handleClaudeCommand, every
    stdout or stderr chunk reaches the display in one write whose text has
    no line feed that is not preceded by a carriage return; when the chunk
    holds no clear-screen triple that text is the chunk with each bare line
    feed rewritten to carriage return and line feed.  (The other sessions
    write their chunks as they are.) *)
Theorem claude_output_line_endings st p pr chunk :
  nth_error (procs st) p = Some pr ->
  p_kind pr = K_claude ->
  (exists out,
      written (trace_of (onStdout p chunk st)) = [out]
      /\ no_bare_lf out = true
      /\ (countMatches (lit clearScreenPattern) chunk = 0 ->
          out = normalizeLineEndings chunk))
  /\ (exists out,
      written (trace_of (onStderr p chunk st)) = [out]
      /\ no_bare_lf out = true
      /\ (countMatches (lit clearScreenPattern) chunk = 0 ->
          out = normalizeLineEndings chunk)).
Proof.
  intros Hp Hk. split.
  - unfold onStdout. rewrite trace_of_bind. cbn [get trace_of value_of state_of fst snd app].
    rewrite Hp, Hk.
    change (update_proc p (set_output true) ;;
            (if includes chunk clearScreenPattern then emit ConsoleLog else ret tt) ;;
            output <- filterClaudeOutput chunk ;; show output)
      with (update_proc p (set_output true) ;;
            ((if includes chunk clearScreenPattern then emit ConsoleLog else ret tt) ;;
            output <- filterClaudeOutput chunk ;; show output)).
    rewrite trace_of_bind.
    change (written (trace_of (update_proc p (set_output true) st) ++ ?x))
      with (written x).
    cbn [update_proc modify value_of state_of fst snd].
    rewrite claude_chunk_shown by (destruct (includes chunk clearScreenPattern); reflexivity).
    eexists. split; [reflexivity|]. split.
    + apply filter_no_bare_lf.
    + intro H0. rewrite filter_plain by exact H0. reflexivity.
  - unfold onStderr. rewrite trace_of_bind. cbn [get trace_of value_of state_of fst snd app].
    rewrite Hp, Hk.
    rewrite claude_chunk_shown by reflexivity.
    eexists. split; [reflexivity|]. split.
    + apply filter_no_bare_lf.
    + intro H0. rewrite filter_plain by exact H0. reflexivity.
Qed.

(** A claude session is Running and emits [hello] and a line feed: the
    display receives [hello], carriage return, line feed. *)
Lemma claude_output_line_endings_witness :
  let evs := [E_open] ++ Sample.typed (js "claude") in
  let st := reached Sample.equipped single_subscription Sample.home evs in
  ptyProcess st = Some 4%nat
  /\ written (trace_of (onStdout 4 (js "hello" ++ [LF]) st))
     = [js "hello" ++ [CR; LF]].
Proof.
  intros evs st. split; [reflexivity|].
  destruct (claude_output_line_endings st 4 (new_proc K_claude (js "expect"))
              (js "hello" ++ [LF]) eq_refl eq_refl)
    as [[out [Hw [_ Hout]]] _].
  rewrite Hw, (Hout eq_refl). reflexivity.
Defined.

End Filter.

(** ** The command dispatcher *)

Module Dispatcher.
Import Js View Logic.

Lemma showPrompt_eq w st :
  showPrompt w st
  = (tt, set_promptShown true (set_currentCommand [] st),
     [TermWrite (if promptShown st then crlf ++ promptText w st
                 else promptText w st);
      TermScrollToBottom; SetTimeout 50 T_refresh]).
Proof.
  unfold showPrompt, promptText, bind, get, modify, write, emit, ret.
  destruct st as [? ? ? ? shown ? ? ? ? ?]; destruct shown; reflexivity.
Qed.




Lemma clear_eq w st :
  executeCommand w (js "clear") st
  = (tt, set_promptShown true (set_currentCommand [] st),
     [TermClear; TermScrollToTop;
      TermWrite (if promptShown st then crlf ++ promptText w st
                 else promptText w st);
      TermScrollToBottom; SetTimeout 50 T_refresh]).
Proof.
  change (executeCommand w (js "clear") st)
    with ((emit TermClear ;; emit TermScrollToTop ;; showPrompt w) st).
  unfold bind, emit. rewrite showPrompt_eq. reflexivity.
Qed.

(** What the display shows is decided by its last [clear()]. *)
Lemma since_clear_after tr0 rest : forall acc,
  since_clear acc (tr0 ++ TermClear :: rest) = since_clear [TermClear] rest.
Proof.
  induction tr0 as [|e tr0 IH]; intro acc; [reflexivity|].
  destruct e; simpl; apply IH.
Qed.

(** C8 (as stated, refuted): [clear] typed once or twice right after the
    panel opened, before the first prompt.  The first run shows the prompt
    at the top of the emptied display, the second run shows it below an
    empty line. *)
Lemma first_clear_differs :
  let once := [E_open] ++ Sample.typed (js "clear") in
  let twice := once ++ Sample.typed (js "clear") in
  let shown evs :=
    since_clear [] (snd (run Sample.bare single_subscription
                             (closed_panel Sample.home) evs)) in
  shown once
  = [TermClear; TermScrollToTop; TermWrite Sample.prompt; TermScrollToBottom]
  /\ shown twice
     = [TermClear; TermScrollToTop; TermWrite (crlf ++ Sample.prompt);
        TermScrollToBottom]
  /\ shown once <> shown twice.
Proof. vm_compute. repeat split. discriminate. Qed.

(** C8 (amended): once a prompt has been shown, running [clear] twice in a
    row leaves the display as running it once does: emptied by [clear()],
    scrolled to the top, the prompt written on a new line and the view
    scrolled to it; neither run spawns a process or installs a session. *)
Theorem clear_is_idempotent w st tr0 :
  promptShown st = true ->
  let r1 := executeCommand w (js "clear") st in
  let r2 := executeCommand w (js "clear") (state_of r1) in
  since_clear [] (tr0 ++ trace_of r1 ++ trace_of r2)
  = since_clear [] (tr0 ++ trace_of r1)
  /\ since_clear [] (tr0 ++ trace_of r1)
     = [TermClear; TermScrollToTop; TermWrite (crlf ++ promptText w st);
        TermScrollToBottom]
  /\ filter is_spawn (trace_of r1 ++ trace_of r2) = []
  /\ ptyProcess (state_of r2) = ptyProcess st
  /\ procs (state_of r2) = procs st.
Proof.
  intros Hshown r1 r2. subst r1 r2. rewrite !clear_eq.
  cbn [state_of trace_of fst snd promptShown set_promptShown
       set_currentCommand]. rewrite Hshown.
  change (promptText w (set_promptShown true (set_currentCommand [] st)))
    with (promptText w st).
  repeat split.
  - rewrite app_assoc.
    rewrite !(since_clear_after _ _ []). reflexivity.
  - rewrite (since_clear_after _ _ []). reflexivity.
Qed.

(** The general form: between the two runs the line editor echoes what is
    typed; the display after the second run is the same all the same. *)
Lemma clear_again_same_display w st st2 tr0 mid :
  promptShown st = true -> promptShown st2 = true -> cwd st2 = cwd st ->
  since_clear [] (tr0 ++ trace_of (executeCommand w (js "clear") st)
                  ++ mid ++ trace_of (executeCommand w (js "clear") st2))
  = since_clear [] (tr0 ++ trace_of (executeCommand w (js "clear") st)).
Proof.
  intros H1 H2 Hcwd. rewrite !clear_eq. cbn [trace_of snd]. rewrite H1, H2.
  replace (promptText w st2) with (promptText w st)
    by (unfold promptText; rewrite Hcwd; reflexivity).
  rewrite !app_assoc, !(since_clear_after _ _ []). reflexivity.
Qed.

(** [clear] twice at the first prompt. *)
Lemma clear_is_idempotent_witness :
  let evs := [E_open; E_timer T_basicClear; E_timer T_basicPrompt] in
  let st := reached Sample.bare single_subscription Sample.home evs in
  let r1 := executeCommand Sample.bare (js "clear") st in
  let r2 := executeCommand Sample.bare (js "clear") (state_of r1) in
  since_clear [] (trace_of r1 ++ trace_of r2) = since_clear [] (trace_of r1).
Proof.
  intros evs st r1 r2.
  exact (proj1 (clear_is_idempotent Sample.bare st [] eq_refl)).
Defined.

End Dispatcher.

(** ** Sessions and the input binding *)

Module Session.
Import Js View Logic.

(** On a display with a single active subscription the last bind wins. *)
Lemma rebind_single hs tr : forall acc,
  rebind single_subscription (slot hs acc) tr
  = slot hs (last_onData_from acc tr).
Proof.
  induction tr as [|e tr IH]; intro acc; [reflexivity|].
  destruct e; try apply IH; try apply (IH (Some h)).
Qed.

Lemma last_onData_from_app acc t1 t2 :
  last_onData_from acc (t1 ++ t2)
  = last_onData_from (last_onData_from acc t1) t2.
Proof. apply fold_left_app. Qed.

Lemma last_onData_from_some h tr :
  exists h', last_onData_from (Some h) tr = Some h'.
Proof.
  revert h; induction tr as [|e tr IH]; intro h; [exists h; reflexivity|].
  destruct e; try apply IH; try apply (IH h0).
Qed.

Lemma rebind_app sub hs t1 t2 :
  rebind sub hs (t1 ++ t2) = rebind sub (rebind sub hs t1) t2.
Proof. apply fold_left_app. Qed.

(** The callbacks that receive input are those bound by the trace. *)
Lemma run_listeners w sub evs : forall pn,
  listeners (fst (run w sub pn evs))
  = rebind sub (listeners pn) (snd (run w sub pn evs)).
Proof.
  induction evs as [|ev evs IH]; intro pn; [reflexivity|].
  cbn [run]. destruct (step w sub pn ev) as [pn1 t1] eqn:E1.
  specialize (IH pn1). destruct (run w sub pn1 evs) as [pn2 t2].
  cbn [fst snd] in *. rewrite rebind_app, IH. f_equal.
  unfold step in E1. injection E1 as <- <-. reflexivity.
Qed.

(** Opening the panel binds a callback, with or without node-pty. *)
Lemma startPty_binds w st :
  exists h, last_onData (trace_of (startPty w st)) = Some h.
Proof.
  unfold startPty, startBasicShell.
  destruct (w_node_pty w).
  - eexists. reflexivity.
  - unfold bind, modify, emit, ret.
    destruct (w_chdir w (w_homedir w)); eexists; reflexivity.
Qed.

(** What the comment in restartTerminal takes for granted: on a display
    whose [onData] replaced the callback bound before, one callback would
    receive the input from [onOpen] on, the one of the last call.  This is
    a property of such a display, whatever the view does. *)
Lemma single_subscription_binds_one w dir evs :
  (deliveries (fst (run w single_subscription (closed_panel dir) evs)) <= 1)%nat
  /\ let r := run w single_subscription (closed_panel dir) (E_open :: evs) in
     (exists h, listeners (fst r) = [h] /\ last_onData (snd r) = Some h)
     /\ deliveries (fst r) = 1%nat.
Proof.
  split.
  - unfold deliveries. rewrite run_listeners.
    change (listeners (closed_panel dir)) with (slot [] None).
    rewrite rebind_single.
    destruct (last_onData_from None _); simpl; lia.
  - intro r.
    assert (H : exists h, listeners (fst r) = [h] /\ last_onData (snd r) = Some h).
    { subst r. rewrite run_listeners.
      change (listeners (closed_panel dir)) with (slot [] None).
      rewrite rebind_single. fold (last_onData (snd (run w single_subscription (closed_panel dir) (E_open :: evs)))).
      cbn [run]. destruct (step w single_subscription (closed_panel dir) E_open)
        as [pn1 t1] eqn:E1.
      destruct (run w single_subscription pn1 evs) as [pn2 t2]. cbn [snd].
      unfold step in E1. injection E1 as _ <-.
      unfold last_onData. rewrite last_onData_from_app.
      destruct (startPty_binds w (new_view dir)) as [h Hh].
      unfold last_onData in Hh.
      match goal with
      | |- context [last_onData_from None ?t] =>
          change t with (trace_of (startPty w (new_view dir)))
      end.
      rewrite Hh.
      destruct (last_onData_from_some h t2) as [h' Hh'].
      exists h'. rewrite Hh'. split; reflexivity. }
    split; [exact H|].
    destruct H as [h [Hl _]]. unfold deliveries. rewrite Hl. reflexivity.
Qed.

(** The callbacks that the view passes to [onData] around a claude
    session and at a restart: the forwarder of the session, the line
    editor again at its end, the empty callback and the line editor at a
    restart. *)
Lemma handler_follows_session :
  let w := Sample.equipped in
  let after evs :=
    listeners (fst (run w single_subscription (closed_panel Sample.home) evs)) in
  let started := [E_open] ++ Sample.typed (js "claude") in
  after started = [H_claudeInput 4]
  /\ after (started ++ [E_exit 4 (Some 0) None]) = [H_handleInput]
  /\ after (started ++ [E_restart]) = [H_handleInput].
Proof. vm_compute. repeat split. Qed.

(** On the widget's event every callback passed to [onData] is kept. *)
Lemma rebind_additive tr : forall hs,
  rebind additive_subscription hs tr = hs ++ onData_calls tr.
Proof.
  induction tr as [|e tr IH]; intro hs; [symmetry; apply app_nil_r|].
  destruct e; try apply IH.
  change (rebind additive_subscription hs (TermOnData h :: tr))
    with (rebind additive_subscription (hs ++ [h]) tr).
  rewrite IH, <- app_assoc. reflexivity.
Qed.

(** No transition of the view removes a listener: the callbacks that
    receive the input are all those ever registered. *)
Lemma listeners_accumulate w pn evs :
  listeners (fst (run w additive_subscription pn evs))
  = listeners pn ++ onData_calls (snd (run w additive_subscription pn evs)).
Proof. rewrite run_listeners. apply rebind_additive. Qed.

Lemma onData_calls_app t1 t2 :
  onData_calls (t1 ++ t2) = onData_calls t1 ++ onData_calls t2.
Proof.
  induction t1 as [|e t1 IH]; [reflexivity|].
  destruct e; simpl; rewrite ?IH; reflexivity.
Qed.

Lemma kill_no_onData w p sig st : onData_calls (trace_of (kill w p sig st)) = [].
Proof. reflexivity. Qed.

Lemma startPty_one_call w st :
  length (onData_calls (trace_of (startPty w st))) = 1%nat.
Proof.
  unfold startPty, startBasicShell. destruct (w_node_pty w); [reflexivity|].
  unfold bind, modify, emit, ret.
  destruct (w_chdir w (w_homedir w)); reflexivity.
Qed.

(** restartTerminal registers two more callbacks, the empty one and the
    one of the restarted shell. *)
Lemma restartTerminal_two_calls w st :
  length (onData_calls (trace_of (restartTerminal w st))) = 2%nat.
Proof.
  unfold restartTerminal.
  rewrite trace_of_bind. cbn [get trace_of value_of state_of fst snd app].
  rewrite trace_of_bind, onData_calls_app.
  assert (H0 : onData_calls
                 (trace_of
                    (match ptyProcess st with
                     | Some q => kill w q SIGTERM ;; modify (set_ptyProcess None)
                     | None => ret tt
                     end st)) = []).
  { destruct (ptyProcess st); reflexivity. }
  rewrite H0. cbn [app].
  repeat (rewrite trace_of_bind, onData_calls_app;
          cbn [emit modify trace_of value_of state_of fst snd onData_calls
               app length]).
  rewrite startPty_one_call. reflexivity.
Qed.

(** Every restart adds two listeners to those of the display. *)
Lemma restarts_stack_callbacks w n : forall pn,
  deliveries (fst (run w additive_subscription pn (repeat E_restart n)))
  = (deliveries pn + 2 * n)%nat.
Proof.
  induction n as [|n IH]; intro pn; [simpl; lia|].
  cbn [repeat]. rewrite Editor.run_cons, IH.
  unfold deliveries, step. cbn [fst listeners react].
  rewrite rebind_additive, length_app, restartTerminal_two_calls. lia.
Qed.

(** C1 (violated by the code): the panel is opened without node-pty and
    restarted once.  The view has called [onData] three times and removed
    nothing, so three callbacks receive the input, the line editor twice:
    the key [a] is handled twice, echoed twice, and the buffer holds [aa].
    Around a claude session the callbacks stack in the same way. *)
Theorem keystroke_delivered_twice :
  let pn := fst (run Sample.bare additive_subscription
                     (closed_panel Sample.home) [E_open; E_restart]) in
  let after := step Sample.bare additive_subscription pn (E_data (js "a")) in
  let session := [E_open] ++ Sample.typed (js "claude")
                 ++ [E_exit 4 (Some 0) None] in
  listeners pn = [H_handleInput; H_noop; H_handleInput]
  /\ written (snd after) = [js "a"; js "a"]
  /\ currentCommand (pv (fst after)) = js "aa"
  /\ listeners (fst (run Sample.equipped additive_subscription
                         (closed_panel Sample.home) session))
     = [H_handleInput; H_claudeInput 4; H_handleInput].
Proof. vm_compute. repeat split. Qed.

Lemma nth_error_update_nth f p : forall l pr,
  nth_error l p = Some pr -> nth_error (update_nth f p l) p = Some (f pr).
Proof.
  induction p as [|p IH]; intros [|x l] pr H; try discriminate.
  - injection H as ->. reflexivity.
  - simpl. apply IH. exact H.
Qed.

Lemma nth_update_nth f p l pr d :
  nth_error l p = Some pr -> nth p (update_nth f p l) d = f pr.
Proof. intro H. apply nth_error_nth, nth_error_update_nth, H. Qed.

Lemma proc_of_nth st p pr :
  nth_error (procs st) p = Some pr -> proc_of st p = pr.
Proof. intro H. unfold proc_of. apply nth_error_nth. exact H. Qed.

(** The state after [handle.kill(sig)]. *)
Lemma kill_eq w p sig st :
  kill w p sig st
  = (tt,
     set_procs (update_nth (fun pr => set_killed (p_killed pr || w_kill w p sig) pr)
                           p (procs st)) st,
     [Kill p sig]).
Proof. reflexivity. Qed.

Lemma killed_after_kill w p sig st pr :
  nth_error (procs st) p = Some pr ->
  killed (state_of (kill w p sig st)) p = p_killed pr || w_kill w p sig.
Proof.
  intro H. rewrite kill_eq. unfold killed, proc_of. cbn [state_of fst snd procs set_procs].
  rewrite (nth_update_nth _ p (procs st) pr) by exact H. reflexivity.
Qed.

(** Ctrl+C in an interactive session that has printed nothing. *)
Lemma interactive_ctrl_c_silent w st p pr :
  nth_error (procs st) p = Some pr ->
  p_killed pr = false ->
  p_live pr = true ->
  p_output pr = false ->
  interactiveInputHandler w p [ETX] st
  = (tt, state_of (kill w p SIGINT st),
     [TermWrite (js "^C" ++ crlf); Kill p SIGINT;
      SetTimeout 1000 (T_ctrlcTerm p)]).
Proof.
  intros Hp Hk Hl Ho.
  unfold interactiveInputHandler, bind, get, emit, write.
  unfold killed, live, hasOutput.
  rewrite (proc_of_nth st p pr Hp), Hk, Hl, Ho.
  cbn [negb andb eqb Z.eqb ETX Pos.eqb].
  rewrite kill_eq. reflexivity.
Qed.




(** What the timers of the escalation do.  Each of them tests the
    handle's [killed] flag, which [kill] sets as soon as a signal has been
    delivered, not whether the process has ended: after a delivered
    SIGINT neither SIGTERM nor SIGKILL is sent, also to a process that
    goes on running. *)
Lemma interrupt_trace w st p pr :
  nth_error (procs st) p = Some pr ->
  p_killed pr = false ->
  p_live pr = true ->
  p_output pr = false ->
  trace_of (interrupt w p st)
  = [TermWrite (js "^C" ++ crlf); Kill p SIGINT;
     SetTimeout 1000 (T_ctrlcTerm p)]
    ++ (if w_kill w p SIGINT then []
        else [Kill p SIGTERM; SetTimeout 2000 (T_ctrlcKill p)]
             ++ (if w_kill w p SIGTERM then [] else [Kill p SIGKILL])).
Proof.
  intros Hp Hk Hl Ho.
  pose proof (interactive_ctrl_c_silent w st p pr Hp Hk Hl Ho) as Hh.
  unfold interrupt. rewrite trace_of_bind, Hh.
  cbn [trace_of value_of state_of fst snd].
  f_equal. set (st1 := state_of (kill w p SIGINT st)).
  assert (H1 : killed st1 p = w_kill w p SIGINT)
    by (unfold st1; rewrite (killed_after_kill w p SIGINT st pr Hp), Hk;
        reflexivity).
  assert (Hp1 : nth_error (procs st1) p
                = Some (set_killed (p_killed pr || w_kill w p SIGINT) pr)).
  { unfold st1. rewrite kill_eq. cbn [state_of fst snd procs set_procs].
    exact (nth_error_update_nth
             (fun q => set_killed (p_killed q || w_kill w p SIGINT) q)
             p (procs st) pr Hp). }
  rewrite trace_of_bind.
  assert (Hterm : onTimer w (T_ctrlcTerm p) st1
            = if w_kill w p SIGINT then (tt, st1, [])
              else (tt, state_of (kill w p SIGTERM st1),
                    [Kill p SIGTERM; SetTimeout 2000 (T_ctrlcKill p)])).
  { unfold onTimer, bind, get, emit. rewrite H1.
    destruct (w_kill w p SIGINT); [reflexivity|].
    cbn [negb]. rewrite kill_eq. reflexivity. }
  rewrite Hterm. destruct (w_kill w p SIGINT) eqn:Hint.
  + cbn [trace_of value_of state_of fst snd app].
    unfold onTimer, bind, get. rewrite H1. reflexivity.
  + cbn [trace_of value_of state_of fst snd]. f_equal.
    set (st2 := state_of (kill w p SIGTERM st1)).
    assert (H2 : killed st2 p = w_kill w p SIGTERM).
    { unfold st2. rewrite (killed_after_kill w p SIGTERM st1 _ Hp1).
      cbn [p_killed set_killed]. rewrite Hk. reflexivity. }
    unfold onTimer, bind, get. rewrite H2.
    destruct (w_kill w p SIGTERM); [reflexivity|].
    cbn [negb]. rewrite kill_eq. reflexivity.
Qed.

End Session.

(** ** The second prototype: what the setting can influence *)

Module Setting.
Import Js Proto2.

(** C9 (as stated, refuted): with the setting [claude] or [aider], the
    process is started and then reports an error; the lines shown beside
    the banner differ, for the error listener quotes the setting too. *)
Lemma setting_reaches_error_text :
  let w1 := with_command (js "claude") sample in
  let w2 := with_command (js "aider") sample in
  let evs := [E_start; E_error (js "spawn ENOENT")] in
  beside_banner w1 (snd (run w1 new_view evs))
  <> beside_banner w2 (snd (run w2 new_view evs)).
Proof. vm_compute. discriminate. Qed.

Lemma step_independent w c1 c2 st ev :
  fst (step (with_command c1 w) st ev) = fst (step (with_command c2 w) st ev)
  /\ map untexted (snd (step (with_command c1 w) st ev))
     = map untexted (snd (step (with_command c2 w) st ev)).
Proof.
  destruct ev; simpl; try (split; reflexivity).
  - unfold startClaudeCode; simpl.
    destruct (spawn_throws w); split; reflexivity.
  - unfold restartClaudeCode, stop, startClaudeCode; simpl.
    destruct (childProcess st); destruct (spawn_throws w); split; reflexivity.
Qed.

Lemma run_independent w c1 c2 evs : forall st,
  fst (run (with_command c1 w) st evs) = fst (run (with_command c2 w) st evs)
  /\ map untexted (snd (run (with_command c1 w) st evs))
     = map untexted (snd (run (with_command c2 w) st evs)).
Proof.
  induction evs as [|ev evs IH]; intro st; [split; reflexivity|].
  cbn [run].
  destruct (step_independent w c1 c2 st ev) as [Hs Ht].
  destruct (step (with_command c1 w) st ev) as [s1 t1].
  destruct (step (with_command c2 w) st ev) as [s2 t2].
  cbn [fst snd] in Hs, Ht. subst s2.
  destruct (IH s1) as [Hs' Ht'].
  destruct (run (with_command c1 w) s1 evs) as [s1' t1'].
  destruct (run (with_command c2 w) s1 evs) as [s2' t2'].
  cbn [fst snd] in *. split; [exact Hs'|].
  rewrite !map_app, Ht, Ht'. reflexivity.
Qed.

Lemma filter_spawn_untexted tr :
  filter is_spawn (map untexted tr) = filter is_spawn tr.
Proof.
  induction tr as [|e tr IH]; [reflexivity|].
  destruct e; simpl; rewrite ?IH; reflexivity.
Qed.

Lemma step_spawns_claude w st ev :
  Forall (fun e => exists p, e = Spawn p claudePath [])
         (filter is_spawn (snd (step w st ev))).
Proof.
  destruct ev; cbn [step];
    unfold restartClaudeCode, onClose;
    unfold startClaudeCode, stop, onData, onOutput, onProcClose, onProcError;
    destruct (childProcess st); destruct (spawn_throws w); simpl;
    repeat first [apply Forall_nil | apply Forall_cons | eexists; reflexivity].
Qed.

Lemma run_spawns_claude w evs : forall st,
  Forall (fun e => exists p, e = Spawn p claudePath [])
         (filter is_spawn (snd (run w st evs))).
Proof.
  induction evs as [|ev evs IH]; intro st; [constructor|].
  cbn [run]. pose proof (step_spawns_claude w st ev) as H.
  destruct (step w st ev) as [s1 t1]. specialize (IH s1).
  destruct (run w s1 evs) as [s2 t2]. cbn [snd] in *.
  rewrite filter_app. apply Forall_app. split; assumption.
Qed.

(** C9 (amended): for any two values of the setting, the runs of the view
    go through the same states and perform the same calls, apart from the
    text of what is written to the display or shown in a notice (the
    [Starting <command>...] banner and, after a process error, the
    [Make sure '<command>' ...] line and the failure notice); whatever is
    spawned is [/usr/local/bin/claude] with an empty argument list, and
    startClaudeCode itself depends on the setting in its banner only. *)
Theorem spawn_independent_of_setting w c1 c2 st evs :
  let r1 := run (with_command c1 w) st evs in
  let r2 := run (with_command c2 w) st evs in
  fst r1 = fst r2
  /\ map untexted (snd r1) = map untexted (snd r2)
  /\ filter is_spawn (snd r1) = filter is_spawn (snd r2)
  /\ Forall (fun e => exists p, e = Spawn p claudePath [])
            (filter is_spawn (snd r1))
  /\ tl (snd (startClaudeCode (with_command c1 w) st))
     = tl (snd (startClaudeCode (with_command c2 w) st))
  /\ hd_error (snd (startClaudeCode (with_command c1 w) st))
     = Some (TermWrite (js "Starting " ++ c1 ++ js "..." ++ crlf)).
Proof.
  intros r1 r2. destruct (run_independent w c1 c2 evs st) as [Hs Ht].
  fold r1 r2 in Hs, Ht. split; [exact Hs|]. split; [exact Ht|].
  split; [|split; [apply run_spawns_claude|]].
  - rewrite <- (filter_spawn_untexted (snd r1)), Ht.
    apply filter_spawn_untexted.
  - unfold startClaudeCode; simpl.
    destruct (spawn_throws w); split; reflexivity.
Qed.

(** Two settings, a start and a restart. *)
Lemma two_settings_one_executable :
  let evs := [E_start; E_restart] in
  filter is_spawn (snd (run (with_command (js "aider") sample) new_view evs))
  = [Spawn 0 claudePath []; Spawn 1 claudePath []]
  /\ filter is_spawn (snd (run (with_command (js "claude") sample) new_view evs))
     = [Spawn 0 claudePath []; Spawn 1 claudePath []].
Proof. vm_compute. split; reflexivity. Qed.

End Setting.

(** ** Line endings, words and the search path *)

Module TextFacts.
Import Js Words.

Lemma crlf_from_fixed (s : jsstring) : forall b,
  no_bare_lf_from b s = true -> crlf_from b s = s.
Proof.
  induction s as [|c s IH]; intros b H; [reflexivity|].
  simpl in *. apply andb_prop in H. destruct H as [Hc Hs].
  destruct (Z.eqb_spec c LF) as [->|Hne]; simpl in *.
  - rewrite Hc. simpl. f_equal. apply IH. exact Hs.
  - f_equal. apply IH. exact Hs.
Qed.

(** X1: the line-ending pass of the output filter is idempotent: text it
    has produced passes through it unchanged. *)
Theorem normalizeLineEndings_idempotent (s : jsstring) :
  normalizeLineEndings (normalizeLineEndings s) = normalizeLineEndings s.
Proof.
  unfold normalizeLineEndings. apply crlf_from_fixed.
  apply JsFacts.crlf_from_no_bare_lf.
Qed.

Lemma split_word (w : jsstring) : forall cur s,
  space_free w = true ->
  split_ws_from cur false (w ++ s) = split_ws_from (cur ++ w) false s.
Proof.
  induction w as [|c w IH]; intros cur s H.
  - rewrite app_nil_r. reflexivity.
  - simpl in H. apply andb_prop in H. destruct H as [Hc Hw].
    apply negb_true_iff in Hc. simpl. rewrite Hc.
    rewrite IH by exact Hw. rewrite <- app_assoc. reflexivity.
Qed.

Lemma split_after_space (w s : jsstring) :
  word w ->
  split_ws_from [] true (w ++ s) = split_ws_from [] false (w ++ s).
Proof.
  intros [Hne Hw]. destruct w as [|c w]; [contradiction|].
  simpl in Hw. apply andb_prop in Hw. destruct Hw as [Hc _].
  apply negb_true_iff in Hc. simpl. rewrite Hc. reflexivity.
Qed.

Lemma join_cons2 (sep a b : jsstring) (l : list jsstring) :
  join sep (a :: b :: l) = a ++ sep ++ join sep (b :: l).
Proof. reflexivity. Qed.

Lemma join_head (sep a : jsstring) (l : list jsstring) :
  exists r, join sep (a :: l) = a ++ r.
Proof.
  destruct l; [exists []; simpl; rewrite app_nil_r; reflexivity|].
  eexists. apply join_cons2.
Qed.

Lemma split_space (cur s : jsstring) :
  split_ws_from cur false (32 :: s) = cur :: split_ws_from [] true s.
Proof. reflexivity. Qed.

Lemma split_join_from (ws : list jsstring) : forall w,
  word w -> Forall word ws ->
  split_ws_from [] false (join [32] (w :: ws)) = w :: ws.
Proof.
  induction ws as [|w' ws IH]; intros w Hw Hws.
  - cbn [join]. rewrite <- (app_nil_r w) at 1.
    rewrite split_word by apply Hw. reflexivity.
  - inversion Hws as [|? ? Hw' Hws']; subst.
    rewrite join_cons2, split_word by apply Hw.
    cbn [app]. rewrite split_space. f_equal.
    destruct (join_head [32] w' ws) as [r Hj].
    rewrite Hj, split_after_space by exact Hw'.
    rewrite <- Hj. apply IH; assumption.
Qed.

(** X2: the dispatcher's split recovers the words of a command line: for
    a name and arguments that are non-empty and free of white space,
    joined by single spaces, [parts[0]] is the name and the rest are the
    arguments. *)
Theorem split_ws_join (name : jsstring) (args : list jsstring) :
  word name -> Forall word args ->
  split_ws (join (js " ") (name :: args)) = name :: args.
Proof. apply split_join_from. Qed.

Lemma split_ws_join_witness :
  split_ws (js "cd /tmp") = [js "cd"; js "/tmp"].
Proof.
  refine (split_ws_join (js "cd") [js "/tmp"] _ _).
  - split; [discriminate|reflexivity].
  - repeat constructor; discriminate.
Defined.

Lemma trimStart_head (s : jsstring) :
  trimStart s = [] \/ exists c r, trimStart s = c :: r /\ is_space c = false.
Proof.
  induction s as [|c s IH]; [left; reflexivity|].
  simpl. destruct (is_space c) eqn:Hc; [exact IH|].
  right. exists c, s. split; [reflexivity|exact Hc].
Qed.

Lemma trimStart_snoc (l : jsstring) (x : Z) :
  is_space x = false -> trimStart (l ++ [x]) = trimStart l ++ [x].
Proof.
  intro Hx. induction l as [|c l IH]; simpl.
  - rewrite Hx. reflexivity.
  - destruct (is_space c); [exact IH|reflexivity].
Qed.

(** What [trim] returns is empty or begins and ends with a character that
    is not white space. *)
Lemma trim_shape (s : jsstring) :
  trim s = []
  \/ (exists c r, trim s = c :: r /\ is_space c = false)
     /\ is_space (last (trim s) 0) = false.
Proof.
  unfold trim, trimEnd.
  destruct (trimStart_head s) as [->|[x [u [-> Hx]]]]; [left; reflexivity|].
  right. cbn [rev]. rewrite trimStart_snoc by exact Hx.
  rewrite rev_app_distr. cbn [rev app]. split.
  - exists x, (rev (trimStart (rev u))). split; [reflexivity|exact Hx].
  - destruct (trimStart_head (rev u)) as [->|[c [r [-> Hc]]]].
    + exact Hx.
    + cbn [rev]. rewrite app_comm_cons, last_last. exact Hc.
Qed.

Lemma space_free_snoc (cur : jsstring) (c : Z) :
  space_free cur = true -> is_space c = false ->
  space_free (cur ++ [c]) = true.
Proof.
  intros H Hc. unfold space_free in *. rewrite forallb_app, H. simpl.
  rewrite Hc. reflexivity.
Qed.

Lemma split_parts (s : jsstring) : forall cur in_ws,
  space_free cur = true ->
  (in_ws = false -> cur = [] ->
   exists c r, s = c :: r /\ is_space c = false) ->
  (s = [] -> cur <> []) ->
  (s <> [] -> is_space (last s 0) = false) ->
  Forall word (split_ws_from cur in_ws s).
Proof.
  induction s as [|c s IH]; intros cur in_ws Hcur Hhead Hnil Hlast.
  - constructor; [|constructor]. split; [apply Hnil; reflexivity|exact Hcur].
  - simpl. destruct (is_space c) eqn:Hc.
    + assert (Hs : s <> []).
      { intros ->. specialize (Hlast ltac:(discriminate)). simpl in Hlast.
        congruence. }
      assert (Hlast' : s <> [] -> is_space (last s 0) = false).
      { intros _. specialize (Hlast ltac:(discriminate)).
        destruct s; [contradiction|exact Hlast]. }
      destruct in_ws.
      * apply IH; try assumption; [discriminate|contradiction].
      * constructor.
        -- split; [|exact Hcur]. intros ->.
           destruct (Hhead eq_refl eq_refl) as [c' [r [E Hc']]].
           injection E as <- _. congruence.
        -- apply IH; try assumption; [reflexivity|discriminate|contradiction].
    + apply IH.
      * apply space_free_snoc; assumption.
      * intros _ E. destruct cur; discriminate.
      * intros _ E. destruct cur; discriminate.
      * intros Hs. specialize (Hlast ltac:(discriminate)).
        destruct s; [contradiction|exact Hlast].
Qed.

Lemma split_never_empty (s : jsstring) : forall cur in_ws,
  split_ws_from cur in_ws s <> [].
Proof.
  induction s as [|c s IH]; intros cur in_ws; simpl; [discriminate|].
  destruct (is_space c); [destruct in_ws|]; try apply IH. discriminate.
Qed.

(** X3: whenever the line editor submits a command (the trimmed buffer is
    not empty), every part of the dispatcher's split is a non-empty word
    without white space; in particular the command name [parts[0]] is
    never empty. *)
Theorem submitted_parts_are_words (buffer : jsstring) :
  View.nonempty (trim buffer) = true ->
  Forall word (split_ws (trim buffer))
  /\ hd [] (split_ws (trim buffer)) <> [].
Proof.
  intro Hne.
  assert (H : Forall word (split_ws (trim buffer))).
  { destruct (trim_shape buffer) as [E|[[c [r [E Hc]]] Hl]].
    - rewrite E in Hne. discriminate.
    - apply split_parts.
      + reflexivity.
      + intros _ _. exists c, r. split; assumption.
      + intros E'. rewrite E' in Hne. discriminate.
      + intros _. exact Hl. }
  split; [exact H|].
  pose proof (split_never_empty (trim buffer) [] false) as Hn.
  unfold split_ws in *.
  destruct (split_ws_from [] false (trim buffer)) as [|p ps]; [contradiction|].
  inversion H as [|? ? [Hp _] _]; subst. exact Hp.
Qed.

Lemma submitted_parts_are_words_witness :
  hd [] (split_ws (trim (js "  ls   -la  "))) <> [].
Proof.
  exact (proj2 (submitted_parts_are_words (js "  ls   -la  ") eq_refl)).
Defined.

End TextFacts.

(** ** The enhanced search path *)

Module EnvFacts.
Import Js Env.

Lemma mem_In x l : mem x l = true <-> In x l.
Proof.
  induction l as [|y l IH]; simpl; [split; [discriminate|contradiction]|].
  rewrite orb_true_iff, IH, JsFacts.eqb_eq. split; intros [H|H]; auto.
Qed.

Lemma mem_not_In x l : mem x l = false <-> ~ In x l.
Proof.
  rewrite <- mem_In. destruct (mem x l); split; congruence.
Qed.

Lemma uniq_from_In x l : forall seen,
  In x (uniq_from seen l) <-> In x l /\ ~ In x seen.
Proof.
  induction l as [|y l IH]; intro seen; simpl; [tauto|].
  destruct (mem y seen) eqn:Hy.
  - apply mem_In in Hy. rewrite IH. split.
    + intros [H1 H2]. auto.
    + intros [[->|H1] H2]; [contradiction|auto].
  - apply mem_not_In in Hy. simpl. rewrite IH. simpl. split.
    + intros [->|[H1 H2]]; auto.
    + intros [[->|H1] H2]; auto.
      destruct (list_eq_dec Z.eq_dec y x) as [->|Hne]; auto.
      right. split; [exact H1|]. intros [E|E]; auto.
Qed.

Lemma uniq_from_NoDup l : forall seen, NoDup (uniq_from seen l).
Proof.
  induction l as [|y l IH]; intro seen; simpl; [constructor|].
  destruct (mem y seen); [apply IH|].
  constructor; [|apply IH].
  rewrite uniq_from_In. intros [_ H]. apply H. left. reflexivity.
Qed.

Lemma uniq_from_app p a : forall seen,
  exists seen', uniq_from seen (p ++ a) = uniq_from seen p ++ uniq_from seen' a.
Proof.
  induction p as [|y p IH]; intro seen; simpl; [exists seen; reflexivity|].
  destruct (mem y seen); [apply IH|].
  destruct (IH (y :: seen)) as [seen' E]. exists seen'. rewrite E. reflexivity.
Qed.

Lemma uniq_from_seen a : forall seen,
  (forall x, In x a -> In x seen) -> uniq_from seen a = [].
Proof.
  induction a as [|y a IH]; intros seen H; [reflexivity|].
  simpl. replace (mem y seen) with true
    by (symmetry; apply mem_In, H; left; reflexivity).
  apply IH. intros x Hx. apply H. right. exact Hx.
Qed.

Lemma uniq_from_fixed l a : forall seen,
  NoDup l -> (forall x, In x l -> ~ In x seen) ->
  (forall x, In x a -> In x l \/ In x seen) ->
  uniq_from seen (l ++ a) = l.
Proof.
  induction l as [|y l IH]; intros seen Hnd Hdis Ha.
  - apply uniq_from_seen. intros x Hx. destruct (Ha x Hx); [contradiction|auto].
  - inversion Hnd as [|? ? Hy Hnd']; subst. simpl.
    replace (mem y seen) with false
      by (symmetry; apply mem_not_In, Hdis; left; reflexivity).
    f_equal. apply IH; [exact Hnd'| |].
    + intros x Hx [->|Hs]; [contradiction|].
      apply (Hdis x); [right; exact Hx|exact Hs].
    + intros x Hx. destruct (Ha x Hx) as [[->|H]|H]; simpl; auto.
Qed.

Lemma colon_free_snoc cur c :
  colon_free cur = true -> (c =? COLON) = false ->
  colon_free (cur ++ [c]) = true.
Proof.
  intros H Hc. unfold colon_free in *. rewrite forallb_app, H. simpl.
  rewrite Hc. reflexivity.
Qed.

Lemma split_on_colon_free s : forall cur,
  colon_free cur = true ->
  Forall (fun e => colon_free e = true) (split_on_from COLON cur s).
Proof.
  induction s as [|c s IH]; intros cur H; simpl.
  - constructor; [exact H|constructor].
  - destruct (c =? COLON) eqn:Hc.
    + constructor; [exact H|]. apply IH. reflexivity.
    + apply IH, colon_free_snoc; assumption.
Qed.

Lemma split_on_entry e : forall cur s,
  colon_free e = true ->
  split_on_from COLON cur (e ++ s) = split_on_from COLON (cur ++ e) s.
Proof.
  induction e as [|c e IH]; intros cur s H.
  - rewrite app_nil_r. reflexivity.
  - simpl in H. apply andb_prop in H. destruct H as [Hc He].
    apply negb_true_iff in Hc. simpl. rewrite Hc, IH by exact He.
    rewrite <- app_assoc. reflexivity.
Qed.

(** Splitting what [join(':')] made gives the entries back. *)
Lemma split_on_join l : forall e,
  Forall (fun x => colon_free x = true) (e :: l) ->
  split_on COLON (join [COLON] (e :: l)) = e :: l.
Proof.
  unfold split_on.
  induction l as [|e' l IH]; intros e H; inversion H as [|? ? He Hl]; subst.
  - cbn [join]. rewrite <- (app_nil_r e) at 1.
    rewrite split_on_entry by exact He. reflexivity.
  - change (join [COLON] (e :: e' :: l))
      with (e ++ COLON :: join [COLON] (e' :: l)).
    rewrite split_on_entry by exact He. cbn [app].
    change (split_on_from COLON e (COLON :: join [COLON] (e' :: l)))
      with (e :: split_on_from COLON [] (join [COLON] (e' :: l))).
    f_equal. apply IH. exact Hl.
Qed.

Lemma additional_In localBin bin d :
  In d (additionalPaths localBin bin) ->
  forall p, In d (uniq (p ++ additionalPaths localBin bin)).
Proof.
  intros H p. unfold uniq. rewrite uniq_from_In. split; [|tauto].
  apply in_or_app. right. exact H.
Qed.

(** X4: in the search path handed to child processes every directory
    occurs once; it holds every entry of PATH and each of the six added
    directories, and the entries of PATH come first, in their order. *)
Theorem enhanced_path_entries (path localBin bin : jsstring) :
  let entries := enhancedEntries (Some path) localBin bin in
  NoDup entries
  /\ incl (split_on COLON path) entries
  /\ incl (additionalPaths localBin bin) entries
  /\ exists added, entries = uniq (split_on COLON path) ++ added.
Proof.
  assert (E : enhancedEntries (Some path) localBin bin
              = uniq (split_on COLON path ++ additionalPaths localBin bin))
    by (destruct path; reflexivity).
  cbv zeta. rewrite E. repeat split.
  - apply uniq_from_NoDup.
  - intros d H. unfold uniq. rewrite uniq_from_In. split; [|tauto].
    apply in_or_app. left. exact H.
  - intros d H. apply additional_In. exact H.
  - unfold uniq.
    destruct (uniq_from_app (split_on COLON path)
                (additionalPaths localBin bin) []) as [seen' E'].
    eexists. exact E'.
Qed.

(** X5: enhancing an enhanced path changes nothing, provided the two
    home-relative directories hold no colon. *)
Theorem enhanced_path_idempotent (envPath : option jsstring)
    (localBin bin : jsstring) :
  colon_free localBin = true -> colon_free bin = true ->
  getEnhancedPath (Some (getEnhancedPath envPath localBin bin)) localBin bin
  = getEnhancedPath envPath localBin bin.
Proof.
  intros Hl Hb. unfold getEnhancedPath at 1 3. f_equal.
  set (L := enhancedEntries envPath localBin bin).
  assert (HA : Forall (fun x => colon_free x = true)
                      (additionalPaths localBin bin))
    by (repeat constructor; assumption).
  assert (HL : Forall (fun x => colon_free x = true) L).
  { unfold L, enhancedEntries, uniq. apply Forall_forall. intros x Hx.
    apply uniq_from_In in Hx. destruct Hx as [Hx _].
    apply in_app_or in Hx. destruct Hx as [Hx|Hx].
    - pose proof (split_on_colon_free
                    match envPath with Some (c :: p) => c :: p | _ => [] end
                    [] eq_refl) as Hs.
      rewrite Forall_forall in Hs. apply Hs, Hx.
    - rewrite Forall_forall in HA. apply HA, Hx. }
  assert (Hin : forall d, In d (additionalPaths localBin bin) -> In d L)
    by (intros d Hd; apply additional_In; exact Hd).
  assert (Hnd : NoDup L) by apply uniq_from_NoDup.
  assert (E : enhancedEntries (Some (getEnhancedPath envPath localBin bin))
                localBin bin
              = uniq (split_on COLON (join [COLON] L)
                      ++ additionalPaths localBin bin)).
  { unfold enhancedEntries at 1. unfold getEnhancedPath. fold L.
    destruct (join [COLON] L); reflexivity. }
  rewrite E. destruct L as [|e L'] eqn:EL.
  - exfalso. apply (Hin (js "/bin")). simpl. tauto.
  - rewrite split_on_join by exact HL.
    apply uniq_from_fixed; [exact Hnd|tauto|]. intros x Hx. left. auto.
Qed.

Lemma enhanced_path_idempotent_witness :
  let once := getEnhancedPath (Some (js "/usr/bin:/opt/tools"))
                (js "/home/user/.local/bin") (js "/home/user/bin") in
  getEnhancedPath (Some once)
    (js "/home/user/.local/bin") (js "/home/user/bin") = once.
Proof.
  exact (enhanced_path_idempotent (Some (js "/usr/bin:/opt/tools"))
           (js "/home/user/.local/bin") (js "/home/user/bin")
           eq_refl eq_refl).
Defined.

(** X6: when PATH is unset or empty, the enhanced path starts with an
    empty entry (the split of the empty string), so the text handed to the
    child begins with a colon. *)
Theorem enhanced_path_of_empty (localBin bin : jsstring) :
  hd_error (enhancedEntries None localBin bin) = Some []
  /\ hd_error (getEnhancedPath None localBin bin) = Some COLON
  /\ getEnhancedPath (Some []) localBin bin = getEnhancedPath None localBin bin.
Proof. repeat split. Qed.

End EnvFacts.

(** ** More on the line editor *)

Module EditorMore.
Import Js View Logic EditorStates.

Lemma write_times_eq n s st :
  write_times n s st = (tt, st, repeat (TermWrite s) n).
Proof.
  induction n as [|n IH]; [reflexivity|].
  cbn [write_times]. unfold bind, write, emit. rewrite IH. reflexivity.
Qed.

Lemma replaceCurrentCommand_eq c st :
  replaceCurrentCommand c st
  = (tt, set_currentCommand c st,
     repeat (TermWrite erase) (length (currentCommand st)) ++ [TermWrite c]).
Proof.
  unfold replaceCurrentCommand, bind, get, modify, write, emit.
  rewrite write_times_eq. reflexivity.
Qed.

Lemma enter_eq w st :
  editing st -> nonempty (trim (currentCommand st)) = true ->
  let c := trim (currentCommand st) in
  handleInput w [CR] st
  = (tt, state_of (executeCommand w c (submitted c st)),
     TermWrite crlf :: trace_of (executeCommand w c (submitted c st))).
Proof.
  intros [Hpty Hp] Hne c.
  unfold handleInput, bind, get, modify, write, emit, ret.
  rewrite Hpty, Hp. simpl. rewrite Hne. fold c.
  match goal with
  | |- context [executeCommand w c ?s] =>
      replace s with (submitted c st)
        by (unfold submitted; destruct st; simpl;
            rewrite len_app_one; reflexivity)
  end.
  destruct (executeCommand w c (submitted c st)) as [[[] s] t]. reflexivity.
Qed.

(** X7: Enter on a buffer that is not blank records the trimmed buffer
    as the newest history entry, moves the history cursor behind it and
    dispatches exactly that command; whatever the command does, history,
    cursor and re-entrancy flag are as the editor left them. *)
Theorem enter_submits w st :
  editing st -> nonempty (trim (currentCommand st)) = true ->
  let c := trim (currentCommand st) in
  let st' := state_of (handleInput w [CR] st) in
  commandHistory st' = commandHistory st ++ [c]
  /\ historyIndex st' = len (commandHistory st')
  /\ processingInput st' = false
  /\ trace_of (handleInput w [CR] st)
     = TermWrite crlf :: trace_of (executeCommand w c (submitted c st)).
Proof.
  intros He Hne c st'. subst st'. rewrite (enter_eq w st He Hne). fold c.
  cbn [state_of trace_of fst snd].
  pose proof (frames_executeCommand w c (submitted c st)) as Hf.
  unfold editor_core in Hf. injection Hf as Hh Hi Hp.
  rewrite Hh, Hi, Hp. cbn. rewrite len_app_one. repeat split.
Qed.

Lemma enter_submits_witness :
  let st := set_currentCommand (js "  ls -la ")
              (reached Sample.bare additive_subscription Sample.home [E_open]) in
  commandHistory (state_of (handleInput Sample.bare [CR] st)) = [js "ls -la"].
Proof.
  intro st.
  exact (proj1 (enter_submits Sample.bare st (conj eq_refl eq_refl) eq_refl)).
Defined.

(** X8: Enter on an empty or blank buffer submits nothing: history and
    cursor stay, nothing is spawned; the display gets a line break and the
    prompt, and the blanks are dropped from the buffer. *)
Theorem blank_enter_only_prompts w st :
  editing st -> trim (currentCommand st) = [] ->
  handleInput w [CR] st
  = (tt, set_promptShown true (set_currentCommand [] st),
     TermWrite crlf :: trace_of (showPrompt w st)).
Proof.
  intros [Hpty Hp] Hb. rewrite Dispatcher.showPrompt_eq.
  unfold handleInput, showPrompt, promptText, bind, get, modify, write,
    emit, ret.
  rewrite Hpty, Hp. simpl. rewrite Hb. simpl.
  destruct st as [? ? ? ? shown ? ? ? ? ?]; simpl in *; subst.
  destruct shown; reflexivity.
Qed.

Lemma blank_enter_only_prompts_witness :
  let st := set_currentCommand (js "   ")
              (reached Sample.bare additive_subscription Sample.home [E_open]) in
  commandHistory (state_of (handleInput Sample.bare [CR] st)) = []
  /\ filter is_spawn (trace_of (handleInput Sample.bare [CR] st)) = [].
Proof.
  intro st.
  rewrite (blank_enter_only_prompts Sample.bare st (conj eq_refl eq_refl) eq_refl).
  split; reflexivity.
Defined.

Lemma up_eq w st c :
  editing st -> 0 < historyIndex st ->
  history_at (commandHistory st) (historyIndex st - 1) = Some c ->
  handleInput w UP st
  = (tt, set_currentCommand c (set_historyIndex (historyIndex st - 1) st),
     repeat (TermWrite erase) (length (currentCommand st)) ++ [TermWrite c]).
Proof.
  intros [Hpty Hp] Hi Hc. apply Z.ltb_lt in Hi.
  unfold handleInput, replaceCurrentCommand, bind, get, modify, write, emit, ret.
  rewrite Hpty, Hp. simpl. rewrite Hi, Hc. simpl.
  rewrite write_times_eq.
  destruct st; simpl in *; subst; rewrite ?app_nil_r; reflexivity.
Qed.

Lemma up_stays w st :
  editing st -> historyIndex st <= 0 -> handleInput w UP st = (tt, st, []).
Proof.
  intros [Hpty Hp] Hi. apply Z.ltb_ge in Hi.
  unfold handleInput, bind, get, modify, write, emit, ret.
  rewrite Hpty, Hp. simpl. rewrite Hi. simpl.
  destruct st; simpl in *; subst; reflexivity.
Qed.

Lemma down_last w st :
  editing st -> historyIndex st = len (commandHistory st) - 1 ->
  handleInput w DOWN st
  = (tt, set_currentCommand [] (set_historyIndex (historyIndex st + 1) st),
     repeat (TermWrite erase) (length (currentCommand st)) ++ [TermWrite []]).
Proof.
  intros [Hpty Hp] Hi.
  unfold handleInput, replaceCurrentCommand, bind, get, modify, write, emit, ret.
  rewrite Hpty, Hp. simpl.
  replace (historyIndex st <? len (commandHistory st) - 1) with false
    by (symmetry; apply Z.ltb_ge; lia).
  replace (historyIndex st =? len (commandHistory st) - 1) with true
    by (symmetry; apply Z.eqb_eq; exact Hi).
  simpl. rewrite write_times_eq.
  destruct st; simpl in *; subst; rewrite ?app_nil_r; reflexivity.
Qed.

Lemma down_stays w st :
  editing st -> len (commandHistory st) <= historyIndex st ->
  handleInput w DOWN st = (tt, st, []).
Proof.
  intros [Hpty Hp] Hi.
  unfold handleInput, bind, get, modify, write, emit, ret.
  rewrite Hpty, Hp. simpl.
  replace (historyIndex st <? len (commandHistory st) - 1) with false
    by (symmetry; apply Z.ltb_ge; lia).
  replace (historyIndex st =? len (commandHistory st) - 1) with false
    by (symmetry; apply Z.eqb_neq; lia).
  simpl. destruct st; simpl in *; subst; reflexivity.
Qed.

Lemma history_at_last h c : history_at (h ++ [c]) (len h) = Some c.
Proof.
  unfold history_at, len.
  replace (Z.of_nat (length h) <? 0) with false by (symmetry; apply Z.ltb_ge; lia).
  rewrite Nat2Z.id, nth_error_app2, Nat.sub_diag by lia. reflexivity.
Qed.

(** The editor's part of the state after a submitted command. *)
Lemma enter_core w st :
  editing st -> nonempty (trim (currentCommand st)) = true ->
  editor_core (state_of (handleInput w [CR] st))
  = (commandHistory st ++ [trim (currentCommand st)],
     len (commandHistory st) + 1, false).
Proof.
  intros He Hne. rewrite (enter_eq w st He Hne). cbn [state_of fst snd].
  rewrite frames_executeCommand. reflexivity.
Qed.

(** X9: a submitted command can be recalled: when the command did not
    start a session, the next up-arrow puts the trimmed command back into
    the buffer and the cursor on its history entry. *)
Theorem up_recalls_submitted w st :
  editing st -> nonempty (trim (currentCommand st)) = true ->
  let st1 := state_of (handleInput w [CR] st) in
  ptyProcess st1 = None ->
  currentCommand (state_of (handleInput w UP st1)) = trim (currentCommand st)
  /\ historyIndex (state_of (handleInput w UP st1)) = len (commandHistory st).
Proof.
  intros He Hne st1 Hpty1.
  pose proof (enter_core w st He Hne) as Hc. fold st1 in Hc.
  unfold editor_core in Hc. injection Hc as Hh Hi Hp.
  assert (He1 : editing st1) by (split; assumption).
  rewrite (up_eq w st1 (trim (currentCommand st)) He1).
  - cbn. split; [reflexivity|]. rewrite Hi. lia.
  - rewrite Hi. pose proof (len_nonneg (commandHistory st)). lia.
  - rewrite Hh, Hi.
    replace (len (commandHistory st) + 1 - 1) with (len (commandHistory st))
      by lia.
    apply history_at_last.
Qed.

Lemma up_recalls_submitted_witness :
  let st := set_currentCommand (js " nosuchtool  ")
              (reached Sample.bare additive_subscription Sample.home [E_open]) in
  let st1 := state_of (handleInput Sample.bare [CR] st) in
  currentCommand (state_of (handleInput Sample.bare UP st1)) = js "nosuchtool".
Proof.
  intros st st1.
  exact (proj1 (up_recalls_submitted Sample.bare st
                  (conj eq_refl eq_refl) eq_refl eq_refl)).
Defined.

Lemma feed_two w a b st :
  state_of (feed w [a; b] st)
  = state_of (handleInput w b (state_of (handleInput w a st))).
Proof.
  cbn [feed]. rewrite !state_of_bind. reflexivity.
Qed.

(** X10: with the cursor at the end of a non-empty history, up-arrow
    followed by down-arrow brings the cursor back to the end and leaves
    the buffer empty: the text that was being typed is not restored. *)
Theorem up_down_empties_buffer w st :
  editing st -> commandHistory st <> [] ->
  historyIndex st = len (commandHistory st) ->
  state_of (feed w [UP; DOWN] st) = set_currentCommand [] st.
Proof.
  intros He Hne Hi. rewrite feed_two.
  destruct (exists_last Hne) as [h [c Eh]].
  assert (Hlen : len (commandHistory st) = len h + 1)
    by (rewrite Eh; apply len_app_one).
  pose proof (len_nonneg h) as Hh0.
  rewrite (up_eq w st c He).
  - cbn [state_of fst snd].
    rewrite down_last.
    + cbn [state_of fst snd historyIndex set_currentCommand set_historyIndex].
      destruct He as [Hpty Hp].
      destruct st; unfold set_currentCommand, set_historyIndex; simpl in *;
        subst. f_equal. lia.
    + destruct He. split; assumption.
    + cbn. lia.
  - lia.
  - rewrite Hi, Hlen, Eh. replace (len h + 1 - 1) with (len h) by lia.
    apply history_at_last.
Qed.

Lemma up_down_empties_buffer_witness :
  let st0 := reached Sample.bare additive_subscription Sample.home
               ([E_open] ++ Sample.typed (js "nosuchtool")) in
  let st := set_currentCommand (js "half a line") st0 in
  currentCommand (state_of (feed Sample.bare [UP; DOWN] st)) = []
  /\ historyIndex (state_of (feed Sample.bare [UP; DOWN] st)) = 1.
Proof.
  intros st0 st.
  assert (Hne : commandHistory st <> []) by (vm_compute; discriminate).
  rewrite (up_down_empties_buffer Sample.bare st (conj eq_refl eq_refl)
             Hne eq_refl).
  split; vm_compute; reflexivity.
Defined.

(** X11: at the ends of the history the arrows do nothing at all: an
    up-arrow with the cursor at 0 (or at the initial -1) and a down-arrow
    with the cursor at the end change no state and write nothing. *)
Theorem arrows_stop_at_the_ends w st :
  editing st ->
  (historyIndex st <= 0 -> handleInput w UP st = (tt, st, []))
  /\ (len (commandHistory st) <= historyIndex st ->
      handleInput w DOWN st = (tt, st, [])).
Proof.
  intro He. split; intro H; [apply up_stays|apply down_stays]; assumption.
Qed.

Lemma arrows_stop_at_the_ends_witness :
  let st := reached Sample.bare additive_subscription Sample.home
              ([E_open] ++ Sample.typed (js "nosuchtool") ++ [E_data UP]) in
  historyIndex st = 0
  /\ handleInput Sample.bare UP st = (tt, st, []).
Proof.
  intro st. split; [reflexivity|].
  apply (proj1 (arrows_stop_at_the_ends Sample.bare st (conj eq_refl eq_refl))).
  vm_compute. discriminate.
Defined.

End EditorMore.

(** ** Sessions that have ended *)

Module HandleFacts.
Import Js View Logic Handles.

Lemma ages_refl pr : ages pr pr.
Proof. repeat split; auto. Qed.

Lemma ages_trans a b c : ages a b -> ages b c -> ages a c.
Proof.
  intros (K1 & C1 & L1 & D1 & O1) (K2 & C2 & L2 & D2 & O2).
  repeat split; try congruence; auto.
Qed.

Lemma grows_refl l : grows l l.
Proof. intros p pr H. exists pr. split; [exact H|apply ages_refl]. Qed.

Lemma grows_trans a b c : grows a b -> grows b c -> grows a c.
Proof.
  intros Hab Hbc p pr H. destruct (Hab p pr H) as [pr1 [H1 A1]].
  destruct (Hbc p pr1 H1) as [pr2 [H2 A2]].
  exists pr2. split; [exact H2|eapply ages_trans; eassumption].
Qed.

Lemma grows_app l t : grows l (l ++ t).
Proof.
  intros p pr H. exists pr. split; [|apply ages_refl].
  rewrite nth_error_app1; [exact H|].
  apply nth_error_Some. congruence.
Qed.

Lemma grows_update f q : (forall pr, ages pr (f pr)) -> forall l,
  grows l (update_nth f q l).
Proof.
  intros Hf. induction q as [|q IH]; intros [|x l] p pr H;
    try (destruct p; discriminate).
  - destruct p as [|p]; simpl in *.
    + injection H as ->. eexists. split; [reflexivity|apply Hf].
    + exists pr. split; [exact H|apply ages_refl].
  - destruct p as [|p]; simpl in *.
    + exists pr. split; [exact H|apply ages_refl].
    + apply IH. exact H.
Qed.

Lemma stable_ret {A} (a : A) : stable (ret a).
Proof. intro st. apply grows_refl. Qed.

Lemma stable_get : stable get.
Proof. intro st. apply grows_refl. Qed.

Lemma stable_emit e : stable (emit e).
Proof. intro st. apply grows_refl. Qed.

Lemma stable_modify f :
  (forall st, procs (f st) = procs st) -> stable (modify f).
Proof.
  intros H st. unfold modify, state_of. simpl. rewrite H. apply grows_refl.
Qed.

Lemma stable_bind {A B} (m : M A) (k : A -> M B) :
  stable m -> (forall a, stable (k a)) -> stable (bind m k).
Proof.
  intros Hm Hk st. unfold stable, bind, state_of in *.
  specialize (Hm st). destruct (m st) as [[a st1] e1]. simpl in Hm.
  specialize (Hk a st1). destruct (k a st1) as [[b st2] e2]. simpl in *.
  eapply grows_trans; eassumption.
Qed.

Lemma stable_spawn k c c' a : stable (spawn k c c' a).
Proof. intro st. apply grows_app. Qed.

Lemma stable_update_proc p f :
  (forall pr, ages pr (f pr)) -> stable (update_proc p f).
Proof. intros Hf st. apply grows_update, Hf. Qed.

Create HintDb stable.
#[export] Hint Resolve stable_ret stable_get stable_emit stable_spawn : stable.

Ltac ages_tac :=
  unfold ages; simpl; repeat split; auto;
  try (intros ->; reflexivity); try discriminate.

Ltac stable_step :=
  match goal with
  | |- stable (bind _ _) => apply stable_bind; [| intro]
  | |- stable (modify _) => apply stable_modify; intro; reflexivity
  | |- stable (update_proc _ _) => apply stable_update_proc; intro; ages_tac
  | |- stable (if ?b then _ else _) => destruct b
  | |- stable (match ?x with _ => _ end) => destruct x
  | |- stable _ => solve [auto with stable]
  end.

Ltac stable_tac := repeat stable_step.

Lemma stable_write s : stable (write s).
Proof. unfold write; stable_tac. Qed.
#[export] Hint Resolve stable_write : stable.

Lemma stable_kill w p s : stable (kill w p s).
Proof. unfold kill; stable_tac. Qed.
#[export] Hint Resolve stable_kill : stable.

Lemma stable_showPrompt w : stable (showPrompt w).
Proof. unfold showPrompt; stable_tac. Qed.
#[export] Hint Resolve stable_showPrompt : stable.

Lemma stable_write_times n s : stable (write_times n s).
Proof. induction n; simpl; stable_tac. Qed.
#[export] Hint Resolve stable_write_times : stable.

Lemma stable_replaceCurrentCommand c : stable (replaceCurrentCommand c).
Proof. unfold replaceCurrentCommand; stable_tac. Qed.
#[export] Hint Resolve stable_replaceCurrentCommand : stable.

Lemma stable_filterClaudeOutput c : stable (filterClaudeOutput c).
Proof. unfold filterClaudeOutput; stable_tac. Qed.
#[export] Hint Resolve stable_filterClaudeOutput : stable.

Lemma stable_testCommandAvailable w c : stable (testCommandAvailable w c).
Proof. unfold testCommandAvailable; stable_tac. Qed.
#[export] Hint Resolve stable_testCommandAvailable : stable.

Lemma stable_chooseStrategy w a : stable (chooseStrategy w a).
Proof. unfold chooseStrategy; stable_tac. Qed.
#[export] Hint Resolve stable_chooseStrategy : stable.

Lemma stable_handleClaudeCommand w a : stable (handleClaudeCommand w a).
Proof. unfold handleClaudeCommand; stable_tac. Qed.
#[export] Hint Resolve stable_handleClaudeCommand : stable.

Lemma stable_runCheck w p evs b : stable (runCheck w p evs b).
Proof.
  revert b; induction evs as [|e evs IH]; intro b; simpl; [stable_tac|].
  destruct e; stable_tac; auto.
Qed.
#[export] Hint Resolve stable_runCheck : stable.

Lemma stable_executeCommand w c : stable (executeCommand w c).
Proof. unfold executeCommand, handleInteractiveCommand; stable_tac. Qed.
#[export] Hint Resolve stable_executeCommand : stable.

Lemma stable_handleInput w d : stable (handleInput w d).
Proof. unfold handleInput; stable_tac. Qed.
#[export] Hint Resolve stable_handleInput : stable.

Lemma stable_detach : stable detach.
Proof. unfold detach; stable_tac. Qed.
#[export] Hint Resolve stable_detach : stable.

Lemma stable_show c : stable (show c).
Proof. unfold show; stable_tac. Qed.
#[export] Hint Resolve stable_show : stable.

Lemma stable_onStdout p c : stable (onStdout p c).
Proof. unfold onStdout; stable_tac. Qed.

Lemma stable_onStderr p c : stable (onStderr p c).
Proof. unfold onStderr; stable_tac. Qed.

Lemma stable_onError w p m : stable (onError w p m).
Proof. unfold onError; stable_tac. Qed.

Lemma stable_onExit w p c s : stable (onExit w p c s).
Proof. unfold onExit; stable_tac. Qed.

Lemma stable_onProcClose w p : stable (onProcClose w p).
Proof. unfold onProcClose; stable_tac. Qed.

Lemma stable_onClose w : stable (onClose w).
Proof. unfold onClose; stable_tac. Qed.

Lemma stable_onTimer w t : stable (onTimer w t).
Proof. unfold onTimer, checkTimeout; destruct t; stable_tac. Qed.

Lemma stable_startPty w : stable (startPty w).
Proof. unfold startPty, startBasicShell; stable_tac. Qed.
#[export] Hint Resolve stable_startPty : stable.

Lemma stable_restartTerminal w : stable (restartTerminal w).
Proof. unfold restartTerminal; stable_tac. Qed.

Lemma stable_runHandler w h d : stable (runHandler w h d).
Proof.
  destruct h; simpl; stable_tac;
    unfold claudeInputHandler, interactiveInputHandler, claudeSimpleHandler;
    stable_tac.
Qed.

Lemma stable_deliver w hs d : stable (deliver w hs d).
Proof.
  induction hs as [|h hs IH]; simpl; [stable_tac|].
  apply stable_bind; [apply stable_runHandler|intros _; exact IH].
Qed.

Lemma stable_react w hs ev : stable (react w hs ev).
Proof.
  destruct ev; simpl;
    auto using stable_startPty, stable_deliver, stable_onStdout,
      stable_onStderr, stable_onExit, stable_onError, stable_onProcClose,
      stable_onTimer, stable_restartTerminal, stable_onClose.
Qed.

(** Over any run of the panel, handles are kept and their flags only move
    one way. *)
Lemma grows_run w sub evs : forall pn,
  grows (procs (pv pn)) (procs (pv (fst (run w sub pn evs)))).
Proof.
  induction evs as [|ev evs IH]; intro pn; [apply grows_refl|].
  rewrite Editor.run_cons. eapply grows_trans; [|apply IH].
  apply stable_react.
Qed.

Lemma ended_run w sub evs pn p :
  ended (pv pn) p -> ended (pv (fst (run w sub pn evs))) p.
Proof.
  intros [pr [H Hl]]. destruct (grows_run w sub evs pn p pr H) as [pr' [H' A]].
  exists pr'. split; [exact H'|]. apply A, Hl.
Qed.

Lemma heard_run w sub evs pn p :
  heard (pv pn) p -> heard (pv (fst (run w sub pn evs))) p.
Proof.
  intros [pr [H Hl]]. destruct (grows_run w sub evs pn p pr H) as [pr' [H' A]].
  exists pr'. split; [exact H'|]. apply A, Hl.
Qed.

Lemma ended_live st p : ended st p -> live st p = false.
Proof.
  intros [pr [H Hl]]. unfold live, proc_of.
  rewrite (nth_error_nth _ _ _ H). exact Hl.
Qed.

Lemma heard_hasOutput st p : heard st p -> hasOutput st p = true.
Proof.
  intros [pr [H Hl]]. unfold hasOutput, proc_of.
  rewrite (nth_error_nth _ _ _ H). exact Hl.
Qed.

Lemma update_nth_hit f p : forall l pr,
  nth_error l p = Some pr -> nth_error (update_nth f p l) p = Some (f pr).
Proof.
  induction p as [|p IH]; intros [|x l] pr H; try discriminate.
  - injection H as ->. reflexivity.
  - simpl. apply IH. exact H.
Qed.

(** The handlers of a session that has ended do nothing. *)
Lemma ended_silent w st p data :
  ended st p ->
  silent (runHandler w (H_claudeInput p) data) st
  /\ silent (runHandler w (H_interactiveInput p) data) st
  /\ Forall (fun t => silent (onTimer w t) st) (claude_timers p)
  /\ silent (onProcClose w p) st.
Proof.
  intro He. pose proof (ended_live st p He) as Hl.
  destruct He as [pr [Hp Hpl]].
  unfold silent. repeat split.
  - simpl. unfold claudeInputHandler, bind, get. rewrite Hl.
    destruct (ptyProcess st); [rewrite andb_false_r|]; reflexivity.
  - simpl. unfold interactiveInputHandler, bind, get. rewrite Hl.
    rewrite andb_false_r. reflexivity.
  - unfold claude_timers. repeat constructor; unfold onTimer, bind, get;
      rewrite Hl; rewrite ?andb_false_r; simpl;
      destruct (ptyProcess st); reflexivity.
  - unfold onProcClose, bind, get. rewrite Hp.
    destruct (p_kind pr); try reflexivity. rewrite Hpl. reflexivity.
Qed.

End HandleFacts.

(** ** Sessions from start to end *)

Module SessionFacts.
Import Js View Logic EditorStates Handles HandleFacts.

Lemma heard_grows st st' p :
  grows (procs st) (procs st') -> heard st p -> heard st' p.
Proof.
  intros G [pr [H Ho]]. destruct (G p pr H) as [pr' [H' A]].
  exists pr'. split; [exact H'|]. apply A, Ho.
Qed.

Lemma ended_grows st st' p :
  grows (procs st) (procs st') -> ended st p -> ended st' p.
Proof.
  intros G [pr [H Ho]]. destruct (G p pr H) as [pr' [H' A]].
  exists pr'. split; [exact H'|]. apply A, Ho.
Qed.

Lemma ended_after_mark st p pr :
  nth_error (procs st) p = Some pr ->
  ended (state_of (update_proc p (set_live false) st)) p.
Proof.
  intro H. exists (set_live false pr). split; [|reflexivity].
  apply update_nth_hit, H.
Qed.

Lemma heard_after_mark st p pr :
  nth_error (procs st) p = Some pr ->
  heard (state_of (update_proc p (set_output true) st)) p.
Proof.
  intro H. exists (set_output true pr). split; [|reflexivity].
  apply update_nth_hit, H.
Qed.

(** X12: when the process of a session (claude, an interactive tool or
    claude-simple) exits, the view drops the session, passes the line
    editor's callback to [onData] (once) and ends by showing the prompt. *)
Theorem exit_hands_input_back w st p pr code sig :
  nth_error (procs st) p = Some pr ->
  is_session (p_kind pr) = true ->
  let r := onExit w p code sig st in
  ptyProcess (state_of r) = None
  /\ onData_calls (trace_of r) = [H_handleInput]
  /\ (exists shown, trace_of r
                    = TermOnData H_handleInput :: map TermWrite shown
                      ++ prompt_effects w st)
  /\ promptShown (state_of r) = true
  /\ currentCommand (state_of r) = [].
Proof.
  intros Hp Hk r. subst r.
  cbv beta iota zeta delta
    [onExit bind get update_proc detach modify emit write ret].
  rewrite Hp. unfold prompt_effects.
  destruct (p_kind pr); try discriminate;
    [destruct sig as [[|c name]|]; [destruct (abnormal code)| |destruct (abnormal code)]
    |
    |destruct (p_output pr); [destruct (abnormal code)|]];
    cbv beta iota zeta delta [bind emit write ret];
    rewrite Dispatcher.showPrompt_eq;
    (repeat split; try reflexivity);
    solve [exists []; reflexivity | eexists [_]; reflexivity].
Qed.

Lemma exit_hands_input_back_witness :
  let st := reached Sample.equipped additive_subscription Sample.home
              ([E_open] ++ Sample.typed (js "claude")) in
  ptyProcess st = Some 4%nat
  /\ ptyProcess (state_of (onExit Sample.equipped 4%nat (Some 0) None st)) = None.
Proof.
  intro st. split; [reflexivity|].
  refine (proj1 (exit_hands_input_back Sample.equipped st 4%nat
                   (new_proc K_claude (js "expect")) (Some 0) None _ _)).
  - vm_compute. reflexivity.
  - reflexivity.
Defined.

Lemma exit_marks_ended w st p pr code sig :
  nth_error (procs st) p = Some pr ->
  p_kind pr = K_claude \/ p_kind pr = K_interactive ->
  ended (state_of (onExit w p code sig st)) p.
Proof.
  intros Hp Hk. unfold onExit. rewrite state_of_bind.
  cbn [get value_of state_of fst snd]. rewrite Hp.
  destruct Hk as [-> | ->]; rewrite state_of_bind; cbv beta;
    (eapply ended_grows; [|eapply ended_after_mark, Hp]);
    match goal with
    | |- grows _ (procs (state_of (?m _))) =>
        let Hs := fresh in assert (Hs : stable m) by stable_tac; apply Hs
    end.
Qed.

(** X13: once the process of a claude or interactive session has exited,
    whatever happens afterwards (new sessions included), the session's
    input callback, which the display may still call, writes nothing and
    changes nothing; the same holds of the session's timers and of the
    ['close'] event that follows the exit. *)
Theorem ended_session_stays_silent w sub pn p pr code sig evs data :
  nth_error (procs (pv pn)) p = Some pr ->
  p_kind pr = K_claude \/ p_kind pr = K_interactive ->
  let st := pv (fst (run w sub pn (E_exit p code sig :: evs))) in
  silent (runHandler w (H_claudeInput p) data) st
  /\ silent (runHandler w (H_interactiveInput p) data) st
  /\ Forall (fun t => silent (onTimer w t) st) (claude_timers p)
  /\ silent (onProcClose w p) st.
Proof.
  intros Hp Hk st. apply ended_silent. subst st.
  rewrite Editor.run_cons. apply ended_run. simpl.
  eapply exit_marks_ended; eassumption.
Qed.

Lemma ended_session_stays_silent_witness :
  let pn := fst (run Sample.equipped additive_subscription
                   (closed_panel Sample.home)
                   ([E_open] ++ Sample.typed (js "claude"))) in
  let st := pv (fst (run Sample.equipped additive_subscription pn
                       [E_exit 4%nat (Some 0) None; E_data (js "x")])) in
  In (H_claudeInput 4%nat)
     (listeners (fst (run Sample.equipped additive_subscription pn
                        [E_exit 4%nat (Some 0) None; E_data (js "x")])))
  /\ silent (runHandler Sample.equipped (H_claudeInput 4%nat) (js "y")) st.
Proof.
  intros pn st. split; [vm_compute; auto|].
  refine (proj1 (ended_session_stays_silent Sample.equipped
                   additive_subscription pn 4%nat
                   (new_proc K_claude (js "expect")) (Some 0) None
                   [E_data (js "x")] (js "y") _ _)).
  - vm_compute. reflexivity.
  - left. reflexivity.
Defined.

Lemma output_marks_heard st p pr chunk (err : bool) :
  nth_error (procs st) p = Some pr -> p_kind pr = K_claude ->
  heard (state_of ((if err then onStderr p chunk else onStdout p chunk) st)) p.
Proof.
  intros Hp Hk.
  destruct err; [unfold onStderr|unfold onStdout]; rewrite state_of_bind;
    cbn [get value_of state_of fst snd]; rewrite Hp, Hk;
    rewrite state_of_bind; cbv beta;
    (eapply heard_grows; [|eapply heard_after_mark, Hp]);
    match goal with
    | |- grows _ (procs (state_of (?m _))) =>
        let Hs := fresh in assert (Hs : stable m) by stable_tac; apply Hs
    end.
Qed.

Lemma heard_silent w st p :
  heard st p -> Forall (fun t => silent (onTimer w t) st) (nudges p).
Proof.
  intro Hh. pose proof (heard_hasOutput st p Hh) as Ho.
  unfold nudges, silent. repeat constructor; unfold onTimer, bind, get;
    rewrite Ho; simpl; destruct (ptyProcess st); reflexivity.
Qed.

(** X14: once a claude session has written anything to stdout or stderr,
    the timers that nudge a silent session (2 s), warn about it (5 s) and
    terminate it (15 s) do nothing, whenever they fire. *)
Theorem output_silences_nudges w sub pn p pr chunk (err : bool) evs :
  nth_error (procs (pv pn)) p = Some pr ->
  p_kind pr = K_claude ->
  let ev := if err then E_stderr p chunk else E_stdout p chunk in
  let st := pv (fst (run w sub pn (ev :: evs))) in
  Forall (fun t => silent (onTimer w t) st) (nudges p).
Proof.
  intros Hp Hk ev st. apply heard_silent. subst st ev.
  rewrite Editor.run_cons. apply heard_run.
  pose proof (output_marks_heard (pv pn) p pr chunk err Hp Hk) as H.
  destruct err; exact H.
Qed.

Lemma output_silences_nudges_witness :
  let w := Sample.equipped in
  let pn := fst (run w additive_subscription (closed_panel Sample.home)
                   ([E_open] ++ Sample.typed (js "claude"))) in
  let quiet := pv (fst (run w additive_subscription pn [])) in
  let st := pv (fst (run w additive_subscription pn [E_stdout 4%nat (js "hi")])) in
  trace_of (onTimer w (T_claudeNudge 4%nat) quiet)
  = [TermWrite (line (js "Waiting for Claude to respond..."));
     StdinWrite 4%nat [CR]]
  /\ Forall (fun t => silent (onTimer w t) st) (nudges 4%nat).
Proof.
  intros w pn quiet st. split; [reflexivity|].
  refine (output_silences_nudges w additive_subscription pn 4%nat
            (new_proc K_claude (js "expect")) (js "hi") false [] _ _).
  - vm_compute. reflexivity.
  - reflexivity.
Defined.

End SessionFacts.

(** ** The history over whole runs *)

Module HistoryFacts.
Import Js View Logic EditorStates.

Lemma trimmed_trim (s : jsstring) :
  nonempty (trim s) = true -> trimmed (trim s).
Proof.
  intro Hne.
  destruct (TextFacts.trim_shape s) as [E|[[c [r [E Hc]]] Hl]].
  - rewrite E in Hne. discriminate.
  - split; [rewrite E; discriminate|]. split; [rewrite E; exact Hc|exact Hl].
Qed.

Lemma hkeeps_bind {A B} (m : M A) (k : A -> M B) :
  hkeeps m -> (forall a, hkeeps (k a)) -> hkeeps (bind m k).
Proof.
  intros Hm Hk st HI. unfold hkeeps, bind, state_of in *.
  specialize (Hm st HI). destruct (m st) as [[a st1] e1]. simpl in Hm.
  specialize (Hk a st1 Hm). destruct (k a st1) as [[b st2] e2]. exact Hk.
Qed.

Lemma frames_hkeeps {A} (m : M A) : frames m -> hkeeps m.
Proof.
  intros H st HI. specialize (H st). unfold editor_core in H.
  injection H as Hh _ _. unfold history_ok. rewrite Hh. exact HI.
Qed.

Lemma hkeeps_modify f :
  (forall st, commandHistory (f st) = commandHistory st) -> hkeeps (modify f).
Proof. intros H st HI. unfold history_ok, modify, state_of. simpl. rewrite H. exact HI. Qed.

Lemma hkeeps_append c :
  trimmed c ->
  hkeeps (modify (fun s => set_commandHistory (commandHistory s ++ [c]) s)).
Proof.
  intros Hc st HI. unfold history_ok, modify, state_of. simpl.
  apply Forall_app. split; [exact HI|]. constructor; [exact Hc|constructor].
Qed.

Lemma hkeeps_reset : hkeeps (modify (set_commandHistory [])).
Proof. intros st _. constructor. Qed.

Ltac hkeeps_step :=
  match goal with
  | |- hkeeps (bind _ _) => apply hkeeps_bind; [| intro]
  | |- hkeeps (modify (set_commandHistory [])) => apply hkeeps_reset
  | |- hkeeps (modify (fun s => set_commandHistory (commandHistory s ++ [_]) s)) =>
      apply hkeeps_append, trimmed_trim; assumption
  | |- hkeeps (modify _) => apply hkeeps_modify; intro; reflexivity
  | |- hkeeps (if ?b then _ else _) => destruct b eqn:?
  | |- hkeeps (match ?x with _ => _ end) => destruct x
  | |- hkeeps _ => solve [apply frames_hkeeps; auto with frames]
  end.

Ltac hkeeps_tac := repeat hkeeps_step.

Lemma hkeeps_handleInput w data : hkeeps (handleInput w data).
Proof. unfold handleInput. cbv zeta. hkeeps_tac. Qed.

Lemma hkeeps_startPty w : hkeeps (startPty w).
Proof. unfold startPty, startBasicShell. hkeeps_tac. Qed.

Lemma hkeeps_restartTerminal w : hkeeps (restartTerminal w).
Proof.
  unfold restartTerminal. hkeeps_tac; apply hkeeps_startPty.
Qed.

Lemma hkeeps_onTimer w t : hkeeps (onTimer w t).
Proof.
  destruct t;
    try (solve [apply frames_hkeeps; unfold onTimer, checkTimeout; frames_tac]).
  unfold onTimer. apply hkeeps_bind; [apply frames_hkeeps; frames_tac|].
    intros _. apply hkeeps_handleInput.
Qed.

Lemma hkeeps_runHandler w h data : hkeeps (runHandler w h data).
Proof.
  destruct h; simpl; try (solve [apply frames_hkeeps; frames_tac]).
  apply hkeeps_handleInput.
Qed.

Lemma hkeeps_deliver w hs data : hkeeps (deliver w hs data).
Proof.
  induction hs as [|h hs IH]; simpl.
  - apply frames_hkeeps; frames_tac.
  - apply hkeeps_bind; [apply hkeeps_runHandler|intros _; exact IH].
Qed.

Lemma hkeeps_react w hs ev : hkeeps (react w hs ev).
Proof.
  destruct ev; simpl; try (apply frames_hkeeps; auto with frames; fail).
  - apply hkeeps_startPty.
  - apply hkeeps_deliver.
  - apply hkeeps_onTimer.
  - apply hkeeps_restartTerminal.
Qed.

Lemma history_ok_run w sub evs : forall pn,
  history_ok (pv pn) -> history_ok (pv (fst (run w sub pn evs))).
Proof.
  induction evs as [|ev evs IH]; intros pn H; [exact H|].
  rewrite Editor.run_cons. apply IH. simpl. apply hkeeps_react, H.
Qed.

(** X15: whatever the panel has been through, every entry of the command
    history is a command as it was submitted: not empty, and without white
    space at its start or its end. *)
Theorem history_entries_are_trimmed w sub dir evs :
  Forall trimmed (commandHistory (reached w sub dir evs)).
Proof. apply history_ok_run. constructor. Qed.

(** X16: the history is never read outside its bounds: in every state the
    panel reaches, an up-arrow that moves the cursor and a down-arrow that
    moves it to an entry find a command at the new position. *)
Theorem arrows_read_inside_history w sub dir evs :
  let st := reached w sub dir evs in
  (0 < historyIndex st ->
   exists c, history_at (commandHistory st) (historyIndex st - 1) = Some c)
  /\ (historyIndex st < len (commandHistory st) - 1 ->
      exists c, history_at (commandHistory st) (historyIndex st + 1) = Some c).
Proof.
  intro st. destruct (Editor.Inv_reached w sub dir evs) as [_ H].
  fold st in H. unfold cursor_ok, history_at, len in *.
  assert (Hin : forall i, 0 <= i < Z.of_nat (length (commandHistory st)) ->
            exists c, (if i <? 0 then None
                       else nth_error (commandHistory st) (Z.to_nat i)) = Some c).
  { intros i Hi. replace (i <? 0) with false by (symmetry; apply Z.ltb_ge; lia).
    destruct (nth_error (commandHistory st) (Z.to_nat i)) eqn:E;
      [eexists; reflexivity|].
    apply nth_error_None in E. lia. }
  split; intro Hlt; apply Hin.
  - destruct H as [[Hi _]|H]; lia.
  - destruct H as [[Hi Hh]|H]; [|lia].
    rewrite Hh in Hlt. simpl in Hlt. lia.
Qed.

Lemma arrows_read_inside_history_witness :
  let st := reached Sample.bare additive_subscription Sample.home
              ([E_open] ++ Sample.typed (js "nosuchtool")) in
  exists c, history_at (commandHistory st) (historyIndex st - 1) = Some c.
Proof.
  intro st.
  apply (proj1 (arrows_read_inside_history Sample.bare additive_subscription
                  Sample.home ([E_open] ++ Sample.typed (js "nosuchtool")))).
  vm_compute. reflexivity.
Defined.

(** X17: the re-entrancy flag of the line editor is down in every state
    the panel reaches: every path through [handleInput] resets it, so the
    guard at its entry never drops a keystroke. *)
Theorem guard_is_down_between_events w sub dir evs :
  processingInput (reached w sub dir evs) = false.
Proof. apply (Editor.Inv_reached w sub dir evs). Qed.

End HistoryFacts.

(** ** Built-in commands, the prompt and the start of a session *)

Module ShellFacts.
Import Js View Logic EditorStates.

(** X18: Ctrl+C in the line editor never signals a process: on a
    non-empty buffer it shows [^C], drops the buffer and prompts again; on
    an empty buffer it does nothing at all. *)
Theorem ctrl_c_discards_line w st :
  editing st ->
  handleInput w [ETX] st
  = (if 0 <? len (currentCommand st)
     then (tt, set_promptShown true (set_currentCommand [] st),
           TermWrite (js "^C" ++ crlf) :: prompt_effects w st)
     else (tt, st, [])).
Proof.
  intros [Hpty Hp]. unfold prompt_effects.
  unfold handleInput, showPrompt, promptText, bind, get, modify, write,
    emit, ret.
  rewrite Hpty, Hp. simpl.
  destruct st as [? buf ? ? shown ? ? ? ? ?]; simpl in *; subst.
  destruct (0 <? len buf); [destruct shown|]; reflexivity.
Qed.

Lemma ctrl_c_discards_line_witness :
  let st := set_currentCommand (js "rm -rf")
              (reached Sample.bare additive_subscription Sample.home [E_open]) in
  currentCommand (state_of (handleInput Sample.bare [ETX] st)) = []
  /\ existsb is_kill (trace_of (handleInput Sample.bare [ETX] st)) = false.
Proof.
  intro st.
  rewrite (ctrl_c_discards_line Sample.bare st (conj eq_refl eq_refl)).
  split; reflexivity.
Defined.

(** X19: [cd] spawns nothing.  When the change of directory succeeds the
    view's directory is the resolved argument (the home directory without
    one) and the prompt that follows shows it; when it fails the directory
    stays, and [cd: <message>] is shown before the prompt. *)
Theorem cd_changes_directory w st command args :
  split_ws command = js "cd" :: args ->
  let newDir := if nonempty (hd [] args)
                then w_resolve w (cwd st) (hd [] args) else w_homedir w in
  executeCommand w command st
  = match w_chdir w newDir with
    | None =>
        (tt, set_promptShown true (set_currentCommand [] (set_cwd newDir st)),
         Chdir newDir :: prompt_effects w (set_cwd newDir st))
    | Some message =>
        (tt, set_promptShown true (set_currentCommand [] st),
         TermWrite (line (js "cd: " ++ message)) :: prompt_effects w st)
    end.
Proof.
  intros Hs newDir. unfold executeCommand. rewrite Hs. cbn [hd tl].
  change (eqb (js "cd") (js "clear")) with false.
  change (eqb (js "cd") (js "cd")) with true. cbv iota.
  cbv beta iota zeta delta [bind get emit modify write]. fold newDir.
  destruct (w_chdir w newDir) as [message|];
    rewrite Dispatcher.showPrompt_eq; reflexivity.
Qed.

Lemma cd_changes_directory_witness :
  let st := reached Sample.bare additive_subscription Sample.home [E_open] in
  let r := executeCommand Sample.bare (js "cd /tmp") st in
  cwd (state_of r) = js "/tmp"
  /\ written (trace_of r) = [js "user@host:/tmp$ "]
  /\ filter is_spawn (trace_of r) = [].
Proof.
  intros st r. subst r.
  rewrite (cd_changes_directory Sample.bare st (js "cd /tmp") [js "/tmp"]
             eq_refl).
  repeat split; reflexivity.
Defined.

Lemma replaceFirst_eq p r s :
  replaceFirst p r s
  = if startsWith s p then r ++ skipn (length p) s
    else match s with
         | [] => []
         | c :: s' => c :: replaceFirst p r s'
         end.
Proof. destruct s; reflexivity. Qed.

Lemma skipn_prefix {A} (p s : list A) : skipn (length p) (p ++ s) = s.
Proof. induction p; simpl; auto. Qed.

(** X20: below the home directory the prompt shows [~] for the home
    directory's path.  The test is on the characters of the path, so a
    sibling directory whose name continues the home directory's is
    abbreviated too. *)
Theorem prompt_abbreviates_home w st rest :
  cwd st = w_homedir w ++ rest ->
  written (trace_of (showPrompt w st))
  = [(if promptShown st then crlf else [])
     ++ w_username w ++ js "@" ++ w_hostname w ++ js ":" ++ js "~" ++ rest
     ++ js "$ "].
Proof.
  intro Hc. rewrite Dispatcher.showPrompt_eq. unfold promptText.
  rewrite Hc, JsFacts.startsWith_app, replaceFirst_eq,
    JsFacts.startsWith_app, skipn_prefix.
  destruct (promptShown st); reflexivity.
Qed.

Lemma prompt_abbreviates_home_witness :
  written (trace_of (showPrompt Sample.bare (new_view (js "/home/username"))))
  = [js "user@host:~name$ "].
Proof.
  exact (prompt_abbreviates_home Sample.bare (new_view (js "/home/username"))
           (js "name") eq_refl).
Defined.

Lemma printable_token w st data :
  editing st -> printableFirst data = true ->
  handleInput w data st
  = (tt, set_currentCommand (currentCommand st ++ data) st, [TermWrite data]).
Proof.
  intros [Hpty Hp] Hd.
  assert (Hcr : eqb data [CR] = false)
    by (apply Editor.printableFirst_not; auto).
  assert (Hdel : eqb data [DEL] = false)
    by (apply Editor.printableFirst_not; auto).
  assert (Hbs : eqb data [BS] = false)
    by (apply Editor.printableFirst_not; auto).
  assert (Hetx : eqb data [ETX] = false)
    by (apply Editor.printableFirst_not; auto).
  assert (Hup : eqb data UP = false)
    by (apply Editor.printableFirst_not; auto).
  assert (Hdown : eqb data DOWN = false)
    by (apply Editor.printableFirst_not; auto).
  unfold handleInput, bind, get, modify, write, emit, ret.
  rewrite Hpty, Hp. simpl. rewrite Hcr, Hdel, Hbs, Hetx, Hup, Hdown, Hd.
  simpl. destruct st; simpl in *. subst. reflexivity.
Qed.

Lemma printable_key w st c :
  editing st -> (32 <=? c) && (c <? 127) = true ->
  handleInput w [c] st
  = (tt, set_currentCommand (currentCommand st ++ [c]) st, [TermWrite [c]]).
Proof. intros He Hc. apply printable_token; assumption. Qed.

Lemma feed_printable_then w k s : forall st,
  editing st -> printable s = true ->
  let st' := set_currentCommand (currentCommand st ++ s) st in
  feed w (keys_of s ++ [k]) st
  = (tt, state_of (handleInput w k st'),
     map (fun c => TermWrite [c]) s ++ trace_of (handleInput w k st')).
Proof.
  induction s as [|c s IH]; intros st He Hs st'.
  - subst st'. rewrite app_nil_r.
    replace (set_currentCommand (currentCommand st) st) with st
      by (destruct st; reflexivity).
    cbn [keys_of map app feed]. unfold bind, ret.
    destruct (handleInput w k st) as [[[] s1] t1]. simpl.
    rewrite app_nil_r. reflexivity.
  - simpl in Hs. apply andb_prop in Hs. destruct Hs as [Hc Hs].
    cbn [keys_of map app feed]. unfold bind at 1.
    rewrite (printable_key w st c He Hc).
    fold (keys_of s). rewrite IH; [| destruct He; split; assumption | exact Hs].
    subst st'. cbn [currentCommand set_currentCommand].
    rewrite <- app_assoc. cbn [app].
    replace (set_currentCommand (currentCommand st ++ c :: s)
               (set_currentCommand (currentCommand st ++ [c]) st))
      with (set_currentCommand (currentCommand st ++ c :: s) st)
      by (destruct st; reflexivity).
    reflexivity.
Qed.

Lemma written_chars s t :
  concat (written (map (fun c => TermWrite [c]) s ++ t))
  = s ++ concat (written t).
Proof. induction s as [|c s IH]; simpl; [reflexivity|]. rewrite IH. reflexivity. Qed.

(** X21: the automatic run of the default command does what typing it and
    pressing Enter does: when the buffer is empty at the first prompt and
    the command consists of printable ASCII characters, the two timers of
    the automatic run leave the view in the state that the keystrokes leave
    it in, and show the same text. *)
Theorem auto_run_is_typing w st :
  let cmd := defaultCommand (w_settings w) in
  editing st -> currentCommand st = [] -> printable cmd = true ->
  let auto := (onTimer w T_autoRun ;; onTimer w T_autoEnter) st in
  let hand := feed w (keys_of cmd ++ [[CR]]) st in
  state_of auto = state_of hand
  /\ concat (written (trace_of auto)) = concat (written (trace_of hand)).
Proof.
  intros cmd He Hb Hs auto hand.
  assert (Hf : hand
               = (tt, state_of (handleInput w [CR]
                                  (set_currentCommand (currentCommand st ++ cmd) st)),
                  map (fun c => TermWrite [c]) cmd
                  ++ trace_of (handleInput w [CR]
                                 (set_currentCommand (currentCommand st ++ cmd) st))))
    by exact (feed_printable_then w [CR] cmd st He Hs).
  rewrite Hf, Hb. subst auto. cbn [app].
  unfold onTimer. fold cmd.
  cbv beta iota zeta delta [bind get modify emit write].
  destruct (handleInput w [CR] (set_currentCommand cmd st)) as [[[] s1] t1].
  cbn [state_of trace_of fst snd app written concat]. split; [reflexivity|].
  rewrite written_chars. reflexivity.
Qed.

Lemma auto_run_is_typing_witness :
  let w := with_default (js "nosuchtool") Sample.bare in
  let st := reached w additive_subscription Sample.home [E_open] in
  commandHistory (state_of ((onTimer w T_autoRun ;; onTimer w T_autoEnter) st))
  = commandHistory (state_of (feed w (keys_of (js "nosuchtool") ++ [[CR]]) st)).
Proof.
  intros w st.
  exact (f_equal commandHistory
           (proj1 (auto_run_is_typing w st (conj eq_refl eq_refl) eq_refl
                     eq_refl))).
Defined.

End ShellFacts.

(** ** The start of a claude session *)

Module StartFacts.
Import Js View Logic Handles.

Lemma length_snoc {A} (l : list A) (x : A) : length (l ++ [x]) = S (length l).
Proof. rewrite length_app. simpl. lia. Qed.

(** X22: when the lookup finds [claude], [handleClaudeCommand] starts
    exactly one session process, after one lookup on Windows, four lookups
    when [expect], [stdbuf] or [unbuffer] is found, and five otherwise.
    The session's handle becomes the current process and its callback is
    the only one passed to [onData]. *)
Theorem claude_starts_one_session w args st :
  available (w_which w (js "claude")) = true ->
  let r := handleClaudeCommand w args st in
  let testCmd := if w_win32 w then js "where" else js "which" in
  let found c := available (w_which w c) in
  let n := if w_win32 w then 1%nat
           else if found (js "expect") || found (js "stdbuf")
                   || found (js "unbuffer")
                then 4%nat else 5%nat in
  let p := (length (procs st) + n)%nat in
  exists command spawnArgs,
    procs (state_of r)
    = procs st ++ repeat (new_proc K_lookup testCmd) n
      ++ [new_proc K_claude command]
    /\ ptyProcess (state_of r) = Some p
    /\ onData_calls (trace_of r) = [H_claudeInput p]
    /\ In (Spawn p command spawnArgs) (trace_of r).
Proof.
  intros Hav r testCmd found n p. subst r testCmd found n p.
  cbv beta iota zeta delta
    [handleClaudeCommand chooseStrategy testCommandAvailable bind spawn get
     modify emit write ret fst snd].
  rewrite Hav. cbn [negb].
  destruct (w_win32 w);
    [|destruct (available (w_which w (js "expect")));
      [|destruct (available (w_which w (js "stdbuf")));
        [|destruct (available (w_which w (js "unbuffer")));
          [|destruct (available (w_which w (js "python3")))]]]];
    cbv beta iota zeta delta [bind emit write ret fst snd orb];
    cbn [state_of trace_of fst snd procs ptyProcess set_procs set_ptyProcess];
    eexists _, _;
    (split; [rewrite <- !app_assoc; reflexivity|]);
    (split; [rewrite !length_snoc; f_equal; lia|]);
    (split; [rewrite !length_snoc;
             cbn [app onData_calls]; do 2 f_equal; lia|]);
    rewrite !length_snoc; cbn [app In];
    repeat (first [solve [left; f_equal; lia] | right]).
Qed.

Lemma claude_starts_one_session_witness :
  let st := reached Sample.equipped additive_subscription Sample.home [E_open] in
  ptyProcess (state_of (handleClaudeCommand Sample.equipped [] st))
  = Some 4%nat.
Proof.
  intro st.
  destruct (claude_starts_one_session Sample.equipped [] st eq_refl)
    as [command [spawnArgs [_ [Hp _]]]].
  exact Hp.
Defined.

End StartFacts.
